(** * obs-assistant: the voice pipeline and the session relay

    A shallow embedding of [backend/voice.py] (the energy-gated segmenter
    in [VoiceListener._listen_loop], the utterance queue and the worker
    loop) and of the session side of [backend/main.py] (the retrying
    dispatch [_run_agent_non_stream], the envelope emitted by
    [_handle_agent_stream], the wake-word pattern [_WAKE_RE] and the
    message loop of [websocket_chat]).

    Conventions.
    - Python floats that the code only compares are modelled by the
      rational they denote ([Q]); each constant is given with its exact
      binary64 value.
    - A Python [str] is the list of its characters; a character is an
      [ascii], read as the code point of the same number (code points
      below 256).
    - An exception that leaves a function is a constructor of the
      function's result type. *)

From Stdlib Require Import List Bool Arith ZArith QArith Lia.
From Stdlib Require Import String Ascii.
Import ListNotations.

Local Open Scope Z_scope.

(** ** Numbers *)

(** Python's [int(x)] on a float: truncation toward zero. *)
Definition py_int_of_Q (q : Q) : Z := Z.quot (Qnum q) (Zpos (Qden q)).

(** [a > b] on floats, as a boolean. *)
Definition Qgt_bool (a b : Q) : bool := negb (Qle_bool a b).

(** ** backend/voice.py *)

Module Voice.

Definition SAMPLE_RATE : Z := 16000.
Definition CHANNELS : Z := 1.
(** [0.5], exact in binary64. *)
Definition BLOCK_DURATION : Q := 1 # 2.
(** [0.01] is not a binary fraction; the float the literal denotes is
    [5764607523034235 / 2^59], a little above one hundredth. *)
Definition SILENCE_THRESHOLD : Q := 5764607523034235 # 576460752303423488.
(** [1.5], exact in binary64. *)
Definition SILENCE_TIMEOUT : Q := 3 # 2.
Definition MIN_SPEECH_DURATION : Q := 1 # 2.

(** The two locals of [_listen_loop]. *)
Definition block_size : Z :=
  py_int_of_Q (inject_Z SAMPLE_RATE * BLOCK_DURATION).
Definition silence_blocks : Z :=
  py_int_of_Q (SILENCE_TIMEOUT / BLOCK_DURATION).

Section Listener.

(** One sample of the device stream, and the energy measure [rms]. The
    code takes the root of a mean of squares in floating point; the
    segmenter only compares its value with the threshold. *)
Variable sample : Type.
Variable rms : list sample -> Q.

(** A [chunk] is column 0 of one callback's [indata]. *)
Definition chunk : Type := list sample.

(** The fields of [VoiceListener] that the two loops read and write.
    [_queue] holds arrays and the [None] that [stop] puts. *)
Record VoiceListener : Type := mkListener {
  _running : bool;
  _audio_buffer : list chunk;
  _silent_count : Z;
  _is_speaking : bool;
  _queue : list (option chunk)
}.

(** [__init__]. *)
Definition new_listener : VoiceListener :=
  {| _running := false; _audio_buffer := []; _silent_count := 0;
     _is_speaking := false; _queue := [] |}.

(** [start], on the fields: a running listener is left as it is. *)
Definition start (self : VoiceListener) : VoiceListener :=
  if _running self then self
  else {| _running := true;
          _audio_buffer := _audio_buffer self;
          _silent_count := _silent_count self;
          _is_speaking := _is_speaking self;
          _queue := _queue self |}.

(** [stop] is two statements; the worker thread may run between them. *)
Definition stop_clear_flag (self : VoiceListener) : VoiceListener :=
  {| _running := false;
     _audio_buffer := _audio_buffer self;
     _silent_count := _silent_count self;
     _is_speaking := _is_speaking self;
     _queue := _queue self |}.

Definition stop_put_sentinel (self : VoiceListener) : VoiceListener :=
  {| _running := _running self;
     _audio_buffer := _audio_buffer self;
     _silent_count := _silent_count self;
     _is_speaking := _is_speaking self;
     _queue := _queue self ++ [None] |}.

Definition stop (self : VoiceListener) : VoiceListener :=
  stop_put_sentinel (stop_clear_flag self).

(** [np.concatenate] and [len(full_audio) / SAMPLE_RATE]. *)
Definition concatenate (buf : list chunk) : chunk := List.concat buf.

Definition duration_of (full_audio : chunk) : Q :=
  inject_Z (Z.of_nat (List.length full_audio)) / inject_Z SAMPLE_RATE.

(** The body of [audio_cb] after the running test (lines 72 to 93). *)
Definition audio_cb_body (self : VoiceListener) (indata : chunk)
  : VoiceListener :=
  let level := rms indata in
  if Qgt_bool level SILENCE_THRESHOLD then
    (* both branches of [if not self._is_speaking] end in the same fields *)
    {| _running := _running self;
       _audio_buffer := _audio_buffer self ++ [indata];
       _silent_count := 0;
       _is_speaking := true;
       _queue := _queue self |}
  else if _is_speaking self then
    let buf := _audio_buffer self ++ [indata] in
    let cnt := _silent_count self + 1 in
    if cnt >=? silence_blocks then
      let full_audio := concatenate buf in
      let duration := duration_of full_audio in
      {| _running := _running self;
         _audio_buffer := [];
         _silent_count := 0;
         _is_speaking := false;
         _queue := if Qle_bool MIN_SPEECH_DURATION duration
                   then _queue self ++ [Some full_audio]
                   else _queue self |}
    else
      {| _running := _running self;
         _audio_buffer := buf;
         _silent_count := cnt;
         _is_speaking := true;
         _queue := _queue self |}
  else self.

(** [audio_cb]: raises [sd.CallbackAbort] once the flag is cleared. *)
Inductive cb_result : Type :=
| CallbackAbort
| Returned (self : VoiceListener).

Definition audio_cb (self : VoiceListener) (indata : chunk) : cb_result :=
  if negb (_running self) then CallbackAbort
  else Returned (audio_cb_body self indata).

(** The device calls [audio_cb] once per block, in order. *)
Fixpoint feed (self : VoiceListener) (blocks : list chunk) : cb_result :=
  match blocks with
  | [] => Returned self
  | b :: rest =>
      match audio_cb self b with
      | CallbackAbort => CallbackAbort
      | Returned self' => feed self' rest
      end
  end.

(** The same stream on a listener that stays running. *)
Definition segment (self : VoiceListener) (blocks : list chunk)
  : VoiceListener :=
  fold_left audio_cb_body blocks self.

(** The branch of [audio_cb] at line 85 is taken: a candidate is cut. *)
Definition commits (self : VoiceListener) (indata : chunk) : bool :=
  negb (Qgt_bool (rms indata) SILENCE_THRESHOLD)
  && _is_speaking self
  && (_silent_count self + 1 >=? silence_blocks).

Definition is_speech (b : chunk) : bool := Qgt_bool (rms b) SILENCE_THRESHOLD.

(** A listener just after [start]. *)
Definition started : VoiceListener := start new_listener.

(** What the fields say about the stream read so far: while speaking,
    the buffer is the end of the stream, it holds a speech block and
    after the last one only silent blocks, which the counter counts. *)
Definition shape (pre : list chunk) (s : VoiceListener) : Prop :=
  if _is_speaking s then
    exists x front sp tail,
      pre = x ++ _audio_buffer s
      /\ _audio_buffer s = front ++ sp :: tail
      /\ is_speech sp = true
      /\ Forall (fun c => is_speech c = false) tail
      /\ _silent_count s = Z.of_nat (List.length tail)
      /\ (List.length tail < 3)%nat
  else _audio_buffer s = [] /\ _silent_count s = 0.

(** *** The worker thread

    [transcribe_audio] calls the speech engine; [None] stands for an
    exception raised by it. *)
Variable transcribe_audio : chunk -> option (list ascii).

(** Where the worker thread stands in [_transcribe_loop]. *)
Inductive worker_pc : Type :=
| AtWhile   (* about to test [self._running] *)
| AtGet     (* inside the loop, about to call [self._queue.get()] *)
| Exited.

(** The listener together with its worker thread: [transcribed] lists
    the arrays handed to the engine, [heard] the texts handed to
    [on_transcription], both in order. *)
Record Pipeline : Type := mkPipeline {
  listener : VoiceListener;
  pc : worker_pc;
  transcribed : list chunk;
  heard : list (list ascii)
}.

(** [text and not text.startswith("[")]. *)
Definition passes_filter (text : list ascii) : bool :=
  match text with
  | [] => false
  | c :: _ => negb (Ascii.eqb c "["%char)
  end.

Definition set_queue (self : VoiceListener) (q : list (option chunk))
  : VoiceListener :=
  {| _running := _running self;
     _audio_buffer := _audio_buffer self;
     _silent_count := _silent_count self;
     _is_speaking := _is_speaking self;
     _queue := q |}.

(** One move of the worker thread; [None] when it cannot move (blocked
    in [get] on an empty queue, or finished). *)
Definition worker_step (w : Pipeline) : option Pipeline :=
  match pc w with
  | AtWhile =>
      Some {| listener := listener w;
              pc := if _running (listener w) then AtGet else Exited;
              transcribed := transcribed w;
              heard := heard w |}
  | AtGet =>
      match _queue (listener w) with
      | [] => None
      | None :: q =>
          Some {| listener := set_queue (listener w) q;
                  pc := Exited;
                  transcribed := transcribed w;
                  heard := heard w |}
      | Some audio :: q =>
          Some {| listener := set_queue (listener w) q;
                  pc := AtWhile;
                  transcribed := transcribed w ++ [audio];
                  heard :=
                    match transcribe_audio audio with
                    | Some text =>
                        if passes_filter text then heard w ++ [text]
                        else heard w
                    | None => heard w
                    end |}
      end
  | Exited => None
  end.

(** At most [n] moves of the worker, with no other thread in between. *)
Fixpoint worker_run (n : nat) (w : Pipeline) : Pipeline :=
  match n with
  | O => w
  | S n' =>
      match worker_step w with
      | Some w' => worker_run n' w'
      | None => w
      end
  end.

(** The session thread's two statements of [stop], on the pipeline. *)
Definition on_listener (f : VoiceListener -> VoiceListener) (w : Pipeline)
  : Pipeline :=
  {| listener := f (listener w); pc := pc w;
     transcribed := transcribed w; heard := heard w |}.

(** [stop] with the worker making [k] moves between its statements. *)
Definition stop_interleaved (k : nat) (w : Pipeline) : Pipeline :=
  on_listener stop_put_sentinel (worker_run k (on_listener stop_clear_flag w)).

End Listener.

Arguments new_listener {sample}.
Arguments mkListener {sample}.
Arguments _running {sample}.
Arguments _audio_buffer {sample}.
Arguments _silent_count {sample}.
Arguments _is_speaking {sample}.
Arguments _queue {sample}.
Arguments start {sample}.
Arguments stop {sample}.
Arguments stop_clear_flag {sample}.
Arguments stop_put_sentinel {sample}.
Arguments concatenate {sample}.
Arguments duration_of {sample}.
Arguments CallbackAbort {sample}.
Arguments Returned {sample}.
Arguments mkPipeline {sample}.
Arguments listener {sample}.
Arguments pc {sample}.
Arguments transcribed {sample}.
Arguments heard {sample}.
Arguments set_queue {sample}.
Arguments on_listener {sample}.
Arguments audio_cb_body {sample}.
Arguments audio_cb {sample}.
Arguments feed {sample}.
Arguments segment {sample}.
Arguments commits {sample}.
Arguments is_speech {sample}.
Arguments worker_step {sample}.
Arguments worker_run {sample}.
Arguments stop_interleaved {sample}.
Arguments started {sample}.
Arguments shape {sample}.

End Voice.

(** ** backend/main.py *)

Module Main.

(** *** Text *)

Definition pystr : Type := list ascii.

Definition str (s : string) : pystr := list_ascii_of_string s.

Definition code (c : ascii) : N := N_of_ascii c.

Definition in_range (lo hi : N) (c : ascii) : bool :=
  ((lo <=? code c) && (code c <=? hi))%N.

(** [str.isspace], which is also the class [\s] of a [str] pattern. *)
Definition is_space (c : ascii) : bool :=
  in_range 9 13 c || in_range 28 32 c
  || (code c =? 133)%N || (code c =? 160)%N.

(** The class [\w] of a [str] pattern: [str.isalnum] or the underscore. *)
Definition is_word (c : ascii) : bool :=
  in_range 48 57 c || in_range 65 90 c || (code c =? 95)%N
  || in_range 97 122 c
  || (code c =? 170)%N || in_range 178 179 c || (code c =? 181)%N
  || in_range 185 186 c || in_range 188 190 c
  || in_range 192 214 c || in_range 216 246 c || in_range 248 255 c.

Fixpoint lstrip (s : pystr) : pystr :=
  match s with
  | [] => []
  | c :: r => if is_space c then lstrip r else s
  end.

Definition rstrip (s : pystr) : pystr := rev (lstrip (rev s)).

(** [str.strip()]. *)
Definition py_strip (s : pystr) : pystr := rstrip (lstrip s).

Fixpoint starts_with (p s : pystr) : bool :=
  match p, s with
  | [], _ => true
  | a :: p', c :: s' => Ascii.eqb a c && starts_with p' s'
  | _ :: _, [] => false
  end.

(** [needle in hay]. *)
Fixpoint contains (needle hay : pystr) : bool :=
  starts_with needle hay
  || match hay with
     | [] => false
     | _ :: r => contains needle r
     end.

Definition pystr_eqb (a b : pystr) : bool :=
  if list_eq_dec ascii_dec a b then true else false.

(** *** The part of [re] that [_WAKE_RE] uses

    A pattern is a sequence of items; [re.search] takes the leftmost
    start at which the sequence matches, a [+] takes as many characters
    as it can and gives them back one at a time when the rest fails. *)

Inductive re_item : Type :=
| Boundary                          (* [\b] *)
| Lit (a : ascii)                   (* an ASCII letter under IGNORECASE *)
| Plus (cls : ascii -> bool)        (* [[...]+] *)
| GroupPlus (cls : ascii -> bool).  (* [(...+)], group 1 *)

Definition ascii_lower (c : ascii) : ascii :=
  if in_range 65 90 c then ascii_of_N (code c + 32) else c.

Definition lit_matches (a c : ascii) : bool :=
  Ascii.eqb (ascii_lower a) (ascii_lower c).

Definition word_before (prev : option ascii) : bool :=
  match prev with
  | Some c => is_word c
  | None => false
  end.

Definition word_after (s : pystr) : bool :=
  match s with
  | c :: _ => is_word c
  | [] => false
  end.

Definition at_boundary (prev : option ascii) (s : pystr) : bool :=
  xorb (word_before prev) (word_after s).

(** Greedy [cls+] followed by [k]: [acc] is what the [+] has taken,
    [k] gets that text, the last character taken and the rest. *)
Fixpoint plus_greedy {A : Type} (cls : ascii -> bool)
    (k : pystr -> ascii -> pystr -> option A) (acc s : pystr) : option A :=
  match s with
  | [] => None
  | c :: r =>
      if cls c then
        match plus_greedy cls k (acc ++ [c]) r with
        | Some x => Some x
        | None => k (acc ++ [c]) c r
        end
      else None
  end.

(** Match the items at this place; the result is group 1. *)
Fixpoint match_here (p : list re_item) (g : option pystr)
    (prev : option ascii) (s : pystr) : option (option pystr) :=
  match p with
  | [] => Some g
  | Boundary :: p' =>
      if at_boundary prev s then match_here p' g prev s else None
  | Lit a :: p' =>
      match s with
      | c :: r => if lit_matches a c then match_here p' g (Some c) r else None
      | [] => None
      end
  | Plus cls :: p' =>
      plus_greedy cls (fun _ c r => match_here p' g (Some c) r) [] s
  | GroupPlus cls :: p' =>
      plus_greedy cls (fun cap c r => match_here p' (Some cap) (Some c) r) [] s
  end.

Fixpoint search_from (p : list re_item) (prev : option ascii) (s : pystr)
  : option (option pystr) :=
  match match_here p None prev s with
  | Some m => Some m
  | None =>
      match s with
      | [] => None
      | c :: r => search_from p (Some c) r
      end
  end.

Definition re_search (p : list re_item) (s : pystr) : option (option pystr) :=
  search_from p None s.

(** [[\s,.:!?]]. *)
Definition is_sep (c : ascii) : bool :=
  is_space c
  || Ascii.eqb c ","%char || Ascii.eqb c "."%char || Ascii.eqb c ":"%char
  || Ascii.eqb c "!"%char || Ascii.eqb c "?"%char.

(** [.] without DOTALL: anything but a line feed. *)
Definition is_dot (c : ascii) : bool := negb (code c =? 10)%N.

(** [re.compile(r"\bobs[\s,.:!?]+(.+)", re.IGNORECASE)]. *)
Definition _WAKE_RE : list re_item :=
  [Boundary; Lit "o"; Lit "b"; Lit "s"; Plus is_sep; GroupPlus is_dot].

(** Lines 509 to 511 of [_handle_transcription]: the command, or [None]
    when the pattern does not match. *)
Definition wake_command (text : pystr) : option pystr :=
  match re_search _WAKE_RE (py_strip text) with
  | Some (Some g) => Some (py_strip g)
  | _ => None
  end.

(** Two readings used to state what the pattern accepts: the place
    after [pre] is the start of a word, and [w] is the wake token in
    any mix of cases. *)
Definition at_word_start (pre : pystr) : Prop :=
  pre = [] \/ exists pre' p, pre = pre' ++ [p] /\ is_word p = false.

Definition is_wake_token (w : pystr) : Prop :=
  map ascii_lower w = str "obs".

(** The pattern can match right after [pre], [tail] being the rest of
    the text: a word starts there with the token, one or more
    separators follow, and then a character that is not a line feed. *)
Definition wake_occurrence (pre tail : pystr) : Prop :=
  at_word_start pre
  /\ exists w seps c rest,
       tail = w ++ seps ++ c :: rest
       /\ is_wake_token w
       /\ seps <> [] /\ forallb is_sep seps = true
       /\ is_dot c = true.

(** The match that [search] reports in [t], cut into what lies before
    it, the token [w], the separators [seps], the group [g] and the
    rest: the pattern can match at no earlier place, the group runs to
    the end of its line, and no longer run of separators is followed by
    a character that the group could start with. *)
Definition wake_match (t pre w seps g rest : pystr) : Prop :=
  t = pre ++ w ++ seps ++ g ++ rest
  /\ at_word_start pre /\ is_wake_token w
  /\ seps <> [] /\ forallb is_sep seps = true
  /\ g <> [] /\ forallb is_dot g = true
  /\ (rest = [] \/ exists r, rest = "010"%char :: r)
  /\ (forall before x after,
        pre = before ++ x :: after ->
        ~ wake_occurrence before (x :: after ++ w ++ seps ++ g ++ rest))
  /\ (forall more c' d rest',
        g ++ rest = more ++ c' :: d :: rest' ->
        forallb is_sep more = true -> is_sep c' = true ->
        is_dot d = false).

(** *** Values and exceptions *)

(** A Python float, as [json.loads] can produce it. *)
Inductive pyfloat : Type :=
| FNum (q : Q)
| FInf (negative : bool)
| FNan.

(** What [json.loads] returns. A dict is the list of its items, first
    binding of a key first; a dict has one binding per key. *)
#[warnings="-register-all"]
Inductive json : Type :=
| JNull
| JBool (b : bool)
| JInt (n : Z)
| JFloat (f : pyfloat)
| JStr (s : pystr)
| JList (l : list json)
| JDict (items : list (pystr * json)).

Inductive exn_class : Type :=
| TimeoutError        (* [asyncio.TimeoutError] *)
| JSONDecodeError
| AttributeError
| ValueError
| TypeError
| OverflowError
| OtherException.     (* any other subclass of [Exception] *)

(** An exception: its class and [str(e)]. *)
Record exn : Type := mkExn { exc_class : exn_class; exc_str : pystr }.

Definition exn_class_eqb (a b : exn_class) : bool :=
  match a, b with
  | TimeoutError, TimeoutError | JSONDecodeError, JSONDecodeError
  | AttributeError, AttributeError | ValueError, ValueError
  | TypeError, TypeError | OverflowError, OverflowError
  | OtherException, OtherException => true
  | _, _ => false
  end.

(** A computation that returns or raises. *)
Inductive result (A : Type) : Type :=
| Ok (a : A)
| Raise (e : exn).
Arguments Ok {A}.
Arguments Raise {A}.

Definition bind {A B : Type} (r : result A) (f : A -> result B) : result B :=
  match r with
  | Ok a => f a
  | Raise e => Raise e
  end.

Notation "x <- r ;; k" := (bind r (fun x => k))
  (at level 61, r at next level, right associativity).

Definition raise_class {A : Type} (c : exn_class) : result A :=
  Raise {| exc_class := c; exc_str := [] |}.

Fixpoint assoc (key : pystr) (items : list (pystr * json)) : option json :=
  match items with
  | [] => None
  | (k, v) :: rest => if pystr_eqb k key then Some v else assoc key rest
  end.

(** [data.get(key, default)]: only a dict has [get]. *)
Definition get (data : json) (key : pystr) (default : json) : result json :=
  match data with
  | JDict items =>
      Ok (match assoc key items with
          | Some v => v
          | None => default
          end)
  | _ => raise_class AttributeError
  end.

(** [not x] is [negb (truthy x)]. *)
Definition truthy (x : json) : bool :=
  match x with
  | JNull => false
  | JBool b => b
  | JInt n => negb (n =? 0)
  | JFloat (FNum q) => negb (Qeq_bool q 0)
  | JFloat _ => true
  | JStr s => match s with [] => false | _ => true end
  | JList l => match l with [] => false | _ => true end
  | JDict d => match d with [] => false | _ => true end
  end.

(** [x == "literal"]. *)
Definition eq_str (x : json) (lit : string) : bool :=
  match x with
  | JStr s => pystr_eqb s (str lit)
  | _ => false
  end.

(** *** [int(x)] *)

Definition is_digit (c : ascii) : bool := in_range 48 57 c.

Definition digit_value (c : ascii) : Z := Z.of_N (code c) - 48.

(** Digits with single underscores between them; [acc] is the value so
    far, [after_digit] tells whether the last character was a digit. *)
Fixpoint parse_digits (s : pystr) (acc : Z) (after_digit : bool) : option Z :=
  match s with
  | [] => if after_digit then Some acc else None
  | c :: r =>
      if is_digit c then parse_digits r (acc * 10 + digit_value c) true
      else if Ascii.eqb c "_"%char && after_digit then parse_digits r acc false
      else None
  end.

(** The blanks [int] skips around a number. *)
Definition is_int_blank (c : ascii) : bool :=
  in_range 9 13 c || (code c =? 32)%N || (code c =? 133)%N
  || (code c =? 160)%N.

Fixpoint skip_blanks (s : pystr) : pystr :=
  match s with
  | [] => []
  | c :: r => if is_int_blank c then skip_blanks r else s
  end.

(** [int(s)] for a [str], base ten. The interpreter's limit on the
    number of digits is not modelled. *)
Definition int_of_str (s : pystr) : option Z :=
  let body := rev (skip_blanks (rev (skip_blanks s))) in
  match body with
  | [] => None
  | c :: r =>
      if Ascii.eqb c "-"%char then option_map Z.opp (parse_digits r 0 false)
      else if Ascii.eqb c "+"%char then parse_digits r 0 false
      else parse_digits body 0 false
  end.

Definition py_int (x : json) : result Z :=
  match x with
  | JInt n => Ok n
  | JBool b => Ok (if b then 1 else 0)
  | JFloat (FNum q) => Ok (py_int_of_Q q)
  | JFloat (FInf _) => raise_class OverflowError
  | JFloat FNan => raise_class ValueError
  | JStr s =>
      match int_of_str s with
      | Some n => Ok n
      | None => raise_class ValueError
      end
  | JNull | JList _ | JDict _ => raise_class TypeError
  end.

(** *** Outbound messages *)

(** The objects passed to [json.dumps] and [ws.send_text], by their
    ["type"] field. Sending is taken to succeed. *)
Inductive outmsg : Type :=
| obs_status (connected : bool) (message : pystr)
| stream_start
| stream_delta (content : pystr)
| stream_end
| error (content : pystr)
| transcription (content : pystr)
| voice_status (listening : bool).

(** The text of the timeout reply; the dash of the source's literal is
    kept as the bytes of its encoding. *)
Definition timeout_text : pystr :=
  str "Request timed out — the model took too long to respond.".

Definition apology_empty : pystr :=
  str "Sorry, I couldn't generate a response. Please try again.".

Definition apology_exhausted : pystr :=
  str "Sorry, I couldn't generate a response after multiple attempts.".

(** *** The session *)

Section Session.

Variable sample : Type.

(** A handle of the control backend, [obs.ReqClient]. *)
Variable client : Type.

(** [connect_obs] catches every exception itself and returns a pair. *)
Variable connect_obs : Z -> json -> option client * pystr.

(** One call of [agent.run]. The executor is outside the program: its
    behaviour is a function of how many calls came before, of the
    prompt and of the handle in [deps]. *)
Inductive attempt : Type :=
| Output (o : option pystr)   (* [result.output], which may be [None] *)
| Raises (e : exn)
| DeadlineExpires.            (* the 30 s of [wait_for] run out here *)

Variable agent_run : nat -> json -> option client -> attempt.

(** How the coroutine [_run_agent_non_stream] ends under [wait_for].
    The cancellation that [wait_for] delivers at its deadline is not an
    [Exception], so the [except] clause of the loop lets it through. *)
Inductive dispatch_end : Type :=
| Returns (text : pystr)
| Fails (e : exn)
| Cancelled.

Definition max_attempts : Z := 3.

Definition blank (o : option pystr) : bool :=
  match o with
  | None => true
  | Some t => match py_strip t with [] => true | _ => false end
  end.

Definition transient (e : exn) : bool :=
  contains (str "invalid_request_error") (exc_str e)
  || contains (str "nil") (exc_str e).

(** The [for] loop of [_run_agent_non_stream] over the remaining values
    of [attempt]; [calls] counts the calls of [agent.run] so far. The
    last line is the [return] after the loop. *)
Fixpoint attempts_loop (user_message : json) (deps : option client)
    (rng : list Z) (calls : nat) : dispatch_end * nat :=
  match rng with
  | [] => (Returns apology_exhausted, calls)
  | attempt :: rest =>
      match agent_run calls user_message deps with
      | Output o =>
          if blank o then
            if attempt <? max_attempts - 1
            then attempts_loop user_message deps rest (S calls)
            else (Returns apology_empty, S calls)
          else
            (Returns (match o with Some t => t | None => [] end), S calls)
      | Raises e =>
          if transient e && (attempt <? max_attempts - 1)
          then attempts_loop user_message deps rest (S calls)
          else (Fails e, S calls)
      | DeadlineExpires => (Cancelled, S calls)
      end
  end.

Definition _run_agent_non_stream (user_message : json) (deps : option client)
    (calls : nat) : dispatch_end * nat :=
  attempts_loop user_message deps [0; 1; 2] calls.

(** [_handle_agent_stream]: the messages sent, and the call count. *)
Definition _handle_agent_stream (user_message : json) (deps : option client)
    (calls : nat) : list outmsg * nat :=
  let (r, calls') := _run_agent_non_stream user_message deps calls in
  match r with
  | Returns result => ([stream_start; stream_delta result; stream_end], calls')
  | Cancelled => ([stream_start; error timeout_text], calls')
  | Fails e =>
      if exn_class_eqb (exc_class e) TimeoutError
      then ([stream_start; error timeout_text], calls')
      else ([stream_start; error (exc_str e)], calls')
  end.

(** The variables of one run of [websocket_chat]. [retired] holds the
    listeners the variable [listener] no longer refers to. *)
Record Session : Type := mkSession {
  obs_client : option client;        (* the module global *)
  deps_obs_client : option client;   (* [deps.obs_client] *)
  listener : option (Voice.VoiceListener sample);
  retired : list (Voice.VoiceListener sample);
  calls : nat
}.

Definition with_calls (st : Session) (n : nat) : Session :=
  {| obs_client := obs_client st; deps_obs_client := deps_obs_client st;
     listener := listener st; retired := retired st; calls := n |}.

Definition with_client (st : Session) (c : option client) : Session :=
  {| obs_client := c; deps_obs_client := c;
     listener := listener st; retired := retired st; calls := calls st |}.

Definition with_listener (st : Session)
    (l : option (Voice.VoiceListener sample))
    (r : list (Voice.VoiceListener sample)) : Session :=
  {| obs_client := obs_client st; deps_obs_client := deps_obs_client st;
     listener := l; retired := r; calls := calls st |}.

(** The variables as the function sets them before its loop, given the
    module global at that time. *)
Definition new_session (c : option client) : Session :=
  {| obs_client := c; deps_obs_client := c;
     listener := None; retired := []; calls := 0 |}.

(** [listener and listener.running]. *)
Definition listener_running (st : Session) : bool :=
  match listener st with
  | Some l => Voice._running l
  | None => false
  end.

(** What [ws.receive_text] and [json.loads] give the loop. *)
Inductive inbound : Type :=
| Disconnect                (* [receive_text] raises [WebSocketDisconnect] *)
| Undecodable               (* [json.loads] raises [JSONDecodeError] *)
| Loaded (data : json).

(** How one turn of the [while True] loop ends. *)
Inductive turn : Type :=
| Continue (st : Session) (sent : list outmsg)   (* back at [receive_text] *)
| Closed (st : Session)                          (* the [except] clause ran *)
| Crashed (e : exn) (st : Session).              (* an exception left the function *)

Definition voice_start (st : Session) : Session :=
  if listener_running st then st
  else with_listener st (Some (Voice.start Voice.new_listener))
         (match listener st with
          | Some old => old :: retired st
          | None => retired st
          end).

Definition voice_stop (st : Session) : Session :=
  match listener st with
  | Some l =>
      if Voice._running l
      then with_listener st None (Voice.stop l :: retired st)
      else st
  | None => st
  end.

(** The body of the loop after [json.loads] (lines 525 to 561). *)
Definition on_data (st : Session) (data : json) : result (Session * list outmsg) :=
  msg_type <- get data (str "type") (JStr []) ;;
  if eq_str msg_type "message" then
    user_message <- get data (str "content") (JStr []) ;;
    if negb (truthy user_message) then Ok (st, [])
    else
      let (sent, n) :=
        _handle_agent_stream user_message (deps_obs_client st) (calls st) in
      Ok (with_calls st n, sent)
  else if eq_str msg_type "obs_connect" then
    raw_port <- get data (str "port") (JInt 4455) ;;
    port <- py_int raw_port ;;
    password <- get data (str "password") (JStr []) ;;
    let (c, msg) := connect_obs port password in
    Ok (with_client st c,
        [obs_status (match c with Some _ => true | None => false end) msg])
  else if eq_str msg_type "voice_start" then
    Ok (voice_start st, [voice_status true])
  else if eq_str msg_type "voice_stop" then
    Ok (voice_stop st, [voice_status false])
  else Ok (st, []).

(** One turn of the loop of [websocket_chat]. *)
Definition chat_turn (st : Session) (i : inbound) : turn :=
  match i with
  | Disconnect =>
      Closed (match listener st with
              | Some l =>
                  if Voice._running l
                  then with_listener st (Some (Voice.stop l)) (retired st)
                  else st
              | None => st
              end)
  | Undecodable => Crashed {| exc_class := JSONDecodeError; exc_str := [] |} st
  | Loaded data =>
      match on_data st data with
      | Ok (st', sent) => Continue st' sent
      | Raise e => Crashed e st
      end
  end.

(** The loop on a list of inbound events: the messages sent, and where
    the session stands. Events after the loop has ended are not read. *)
Fixpoint chat_loop (st : Session) (events : list inbound)
  : list outmsg * turn :=
  match events with
  | [] => ([], Continue st [])
  | i :: rest =>
      match chat_turn st i with
      | Continue st' sent =>
          let (more, t) := chat_loop st' rest in (sent ++ more, t)
      | t => ([], t)
      end
  end.

(** The variables as a turn leaves them. *)
Definition turn_state (t : turn) : Session :=
  match t with
  | Continue st _ => st
  | Closed st => st
  | Crashed _ st => st
  end.

(** [_handle_transcription], run on the session's loop. *)
Definition _handle_transcription (st : Session) (text : pystr)
  : Session * list outmsg :=
  match wake_command text with
  | Some command =>
      let (sent, n) :=
        _handle_agent_stream (JStr command) (deps_obs_client st) (calls st) in
      (with_calls st n, transcription text :: sent)
  | None => (st, [])
  end.

(** The listeners of the session whose flag is set. *)
Definition running_listeners (st : Session) : nat :=
  List.length
    (filter (@Voice._running sample)
       (match listener st with
        | Some l => l :: retired st
        | None => retired st
        end)).

End Session.

Arguments attempts_loop {client}.
Arguments _run_agent_non_stream {client}.
Arguments _handle_agent_stream {client}.
Arguments mkSession {sample client}.
Arguments obs_client {sample client}.
Arguments deps_obs_client {sample client}.
Arguments listener {sample client}.
Arguments retired {sample client}.
Arguments calls {sample client}.
Arguments with_calls {sample client}.
Arguments with_client {sample client}.
Arguments with_listener {sample client}.
Arguments new_session {sample client}.
Arguments listener_running {sample client}.
Arguments Continue {sample client}.
Arguments Closed {sample client}.
Arguments Crashed {sample client}.
Arguments voice_start {sample client}.
Arguments voice_stop {sample client}.
Arguments on_data {sample client}.
Arguments chat_turn {sample client}.
Arguments chat_loop {sample client}.
Arguments _handle_transcription {sample client}.
Arguments running_listeners {sample client}.
Arguments turn_state {sample client}.

(** *** The tools of the agent *)

(** [str.lower()], one character at a time: on code points below 256 it
    moves the capital letters of ASCII and of Latin-1 by 32. *)
Definition py_lower_char (c : ascii) : ascii :=
  if in_range 65 90 c || in_range 192 214 c || in_range 216 222 c
  then ascii_of_N (code c + 32)
  else c.

Definition py_lower (s : pystr) : pystr := map py_lower_char s.

(** [x[key]] for a literal string key: only a dict has string keys, and
    [str(KeyError(key))] is the key between quotes. [KeyError] is one of
    the other subclasses of [Exception]. *)
Definition subscript (x : json) (key : string) : result json :=
  match x with
  | JDict items =>
      match assoc (str key) items with
      | Some v => Ok v
      | None => Raise {| exc_class := OtherException;
                         exc_str := str "'" ++ str key ++ str "'" |}
      end
  | _ => raise_class TypeError
  end.

(** [x.lower()]: only a [str] has the method. *)
Definition lower_of (x : json) : result pystr :=
  match x with
  | JStr t => Ok (py_lower t)
  | _ => raise_class AttributeError
  end.

(** The loop of [_exact_match_source]; it returns at the first match,
    so that later entries are not looked at. *)
Fixpoint first_match (name_lower : pystr) (sources : list json)
  : result (option json) :=
  match sources with
  | [] => Ok None
  | src :: rest =>
      nm <- subscript src "sourceName" ;;
      low <- lower_of nm ;;
      if pystr_eqb low name_lower then Ok (Some src)
      else first_match name_lower rest
  end.

(** [src] has a name, and the name is the query up to case. *)
Definition names (q : pystr) (src : json) : Prop :=
  exists nm, subscript src "sourceName" = Ok (JStr nm) /\ py_lower nm = q.

(** [src] has a name, and it is another one. *)
Definition names_other (q : pystr) (src : json) : Prop :=
  exists nm, subscript src "sourceName" = Ok (JStr nm) /\ py_lower nm <> q.

Definition _exact_match_source (name : pystr) (sources : list json)
  : result (option json) :=
  first_match (py_strip (py_lower name)) sources.

(** [sep.join(parts)]. *)
Fixpoint join (sep : pystr) (parts : list pystr) : pystr :=
  match parts with
  | [] => []
  | p :: rest =>
      match rest with
      | [] => p
      | _ :: _ => p ++ sep ++ join sep rest
      end
  end.

(** The window records that [_list_windows] builds. *)
Record window : Type := mkWindow {
  title : pystr;
  exe : pystr;
  class : pystr;
  hwnd : Z
}.

(** The loop that looks for a window, lines 360 to 365 and again 400 to
    405: the first window whose lowered title contains the lowered and
    stripped query. *)
Fixpoint first_window (title_lower : pystr) (windows : list window)
  : option window :=
  match windows with
  | [] => None
  | w :: rest =>
      if contains title_lower (py_lower (title w)) then Some w
      else first_window title_lower rest
  end.

Definition find_window (window_title : pystr) (windows : list window)
  : option window :=
  first_window (py_strip (py_lower window_title)) windows.

(** Line 195 of [add_text]: the name of the new source. *)
Definition text_input_name (text : pystr) : pystr :=
  if (20 <? Z.of_nat (List.length text))
  then str "Text - " ++ firstn 20 text
  else str "Text - " ++ text.

Section Tools.

(** [str(x)] of a value that is not a [str], as an f-string inserts it. *)
Variable py_str : json -> pystr.

Definition format_value (x : json) : pystr :=
  match x with
  | JStr t => t
  | _ => py_str x
  end.

(** The generator of [_available_sources_str], one quoted name for each
    source. *)
Fixpoint quoted_names (sources : list json) : result (list pystr) :=
  match sources with
  | [] => Ok []
  | src :: rest =>
      nm <- subscript src "sourceName" ;;
      names <- quoted_names rest ;;
      Ok ((str "'" ++ format_value nm ++ str "'") :: names)
  end.

Definition _available_sources_str (sources : list json) : result pystr :=
  match sources with
  | [] => Ok (str "none")
  | _ :: _ =>
      names <- quoted_names sources ;;
      Ok (join (str ", ") names)
  end.

(** What the tools ask of the client. Each field is the answer of the
    call of the same name, or the exception it raises; the scene name,
    the item list, the active flag and the output path are the fields of
    the answers that the tools read. *)
Record ReqClient : Type := mkClient {
  get_current_program_scene : result pystr;
  get_scene_item_list : pystr -> result (list json);
  set_scene_item_enabled : pystr -> json -> bool -> result unit;
  get_record_status : result bool;
  start_record : result unit;
  stop_record : result pystr;
  get_stream_status : result bool;
  start_stream : result unit;
  stop_stream : result unit;
  create_input : pystr -> pystr -> pystr -> list (pystr * pystr) -> bool
                 -> result unit
}.

(** The calls that change something in OBS, as a tool makes them. *)
Inductive request : Type :=
| SetSceneItemEnabled (scene : pystr) (item_id : json) (enabled : bool)
| StartRecord
| StopRecord
| StartStream
| StopStream
| CreateInput (scene name kind : pystr) (settings : list (pystr * pystr))
    (enabled : bool).

(** A tool's reply and the requests it made, in order. *)
Definition outcome : Type := pystr * list request.

(** [except Exception as e: return f"...: {e}"] around the body. *)
Definition caught (prefix : string) (body : result pystr * list request)
  : outcome :=
  match fst body with
  | Ok reply => (reply, snd body)
  | Raise e => (str prefix ++ exc_str e, snd body)
  end.

Definition not_connected : outcome := (str "Error: OBS is not connected.", []).

(** The body shared, word for word, by [hide_source] and [show_source]:
    they differ in the flag they send and in two words of the texts. *)
Definition set_visible (cl : ReqClient) (source_name : pystr)
    (enabled : bool) (state : string) : result pystr * list request :=
  match get_current_program_scene cl with
  | Raise e => (Raise e, [])
  | Ok scene =>
      match get_scene_item_list cl scene with
      | Raise e => (Raise e, [])
      | Ok sources =>
          match _exact_match_source source_name sources with
          | Raise e => (Raise e, [])
          | Ok None =>
              (available <- _available_sources_str sources ;;
               Ok (str "No source named '" ++ source_name
                   ++ str "'. Available sources: " ++ available
                   ++ str ". Call this tool again with the exact name."),
               [])
          | Ok (Some found) =>
              match subscript found "sceneItemId" with
              | Raise e => (Raise e, [])
              | Ok item_id =>
                  let sent := [SetSceneItemEnabled scene item_id enabled] in
                  match set_scene_item_enabled cl scene item_id enabled with
                  | Raise e => (Raise e, sent)
                  | Ok _ =>
                      (nm <- subscript found "sourceName" ;;
                       Ok (str "Done — '" ++ format_value nm
                           ++ str "' is now " ++ str state ++ str " in '"
                           ++ scene ++ str "'"),
                       sent)
                  end
              end
          end
      end
  end.

Definition hide_source (deps : option ReqClient) (source_name : pystr)
  : outcome :=
  match deps with
  | None => not_connected
  | Some cl =>
      caught "Error hiding source: " (set_visible cl source_name false "hidden")
  end.

Definition show_source (deps : option ReqClient) (source_name : pystr)
  : outcome :=
  match deps with
  | None => not_connected
  | Some cl =>
      caught "Error showing source: " (set_visible cl source_name true "visible")
  end.

(** [action.lower().strip() == word]. *)
Definition action_is (action : pystr) (word : string) : bool :=
  pystr_eqb (py_strip (py_lower action)) (str word).

Definition recording (deps : option ReqClient) (action : pystr) : outcome :=
  match deps with
  | None => not_connected
  | Some cl =>
      caught "Error with recording: "
        match get_record_status cl with
        | Raise e => (Raise e, [])
        | Ok output_active =>
            if action_is action "start" then
              if output_active
              then (Ok (str "Recording is already in progress."), [])
              else
                match start_record cl with
                | Raise e => (Raise e, [StartRecord])
                | Ok _ => (Ok (str "Done — recording started."), [StartRecord])
                end
            else if action_is action "stop" then
              if negb output_active
              then (Ok (str "Recording is not running."), [])
              else
                match stop_record cl with
                | Raise e => (Raise e, [StopRecord])
                | Ok output_path =>
                    (Ok (str "Done — recording stopped. Saved to: "
                         ++ output_path), [StopRecord])
                end
            else
              (Ok (str "Unknown action '" ++ action
                   ++ str "'. Use 'start' or 'stop'."), [])
        end
  end.

Definition streaming (deps : option ReqClient) (action : pystr) : outcome :=
  match deps with
  | None => not_connected
  | Some cl =>
      caught "Error with streaming: "
        match get_stream_status cl with
        | Raise e => (Raise e, [])
        | Ok output_active =>
            if action_is action "start" then
              if output_active
              then (Ok (str "Stream is already live."), [])
              else
                match start_stream cl with
                | Raise e => (Raise e, [StartStream])
                | Ok _ => (Ok (str "Done — stream started."), [StartStream])
                end
            else if action_is action "stop" then
              if negb output_active
              then (Ok (str "Stream is not running."), [])
              else
                match stop_stream cl with
                | Raise e => (Raise e, [StopStream])
                | Ok _ => (Ok (str "Done — stream stopped."), [StopStream])
                end
            else
              (Ok (str "Unknown action '" ++ action
                   ++ str "'. Use 'start' or 'stop'."), [])
        end
  end.

(** [add_window_capture], given the windows that [_list_windows] found.
    [windows[:10]] and [title[:30]] are [firstn]. *)
Definition add_window_capture (windows : list window)
    (deps : option ReqClient) (window_title : pystr) : outcome :=
  match deps with
  | None => not_connected
  | Some cl =>
      caught "Error adding window capture: "
        match get_current_program_scene cl with
        | Raise e => (Raise e, [])
        | Ok scene =>
            match find_window window_title windows with
            | None =>
                (Ok (str "No window matching '" ++ window_title
                     ++ str "'. Some available: "
                     ++ join (str ", ")
                          (map (fun w => str "'" ++ title w ++ str "'")
                               (firstn 10 windows))), [])
            | Some found =>
                let window_value :=
                  title found ++ str ":" ++ class found ++ str ":"
                  ++ exe found in
                let source_name := str "Window - " ++ firstn 30 (title found) in
                let settings := [(str "window", window_value);
                                 (str "capture_method", str "auto")] in
                let sent := [CreateInput scene source_name
                               (str "window_capture") settings true] in
                match create_input cl scene source_name
                        (str "window_capture") settings true with
                | Raise e => (Raise e, sent)
                | Ok _ =>
                    (Ok (str "Done — added window capture '" ++ source_name
                         ++ str "' for '" ++ title found ++ str "' in '"
                         ++ scene ++ str "'"), sent)
                end
            end
        end
  end.

End Tools.

End Main.

(** * Properties *)

Lemma Qgt_bool_iff (a b : Q) : Qgt_bool a b = true <-> (b < a)%Q.
Proof.
  unfold Qgt_bool. rewrite negb_true_iff. split.
  - intros H. apply Qnot_le_lt. intros L.
    apply Qle_bool_iff in L. congruence.
  - intros H. destruct (Qle_bool a b) eqn:E; [|reflexivity].
    apply Qle_bool_iff in E. exfalso. exact (Qlt_not_le _ _ H E).
Qed.

Lemma Qgt_bool_false_iff (a b : Q) : Qgt_bool a b = false <-> (a <= b)%Q.
Proof.
  unfold Qgt_bool. rewrite negb_false_iff. apply Qle_bool_iff.
Qed.

(** ** The segmenter *)

Module VoiceFacts.
Import Voice.

Lemma silence_blocks_value : silence_blocks = 3.
Proof. reflexivity. Qed.

Lemma block_size_value : block_size = 8000.
Proof. reflexivity. Qed.

Section Segmenter.

Variable sample : Type.
Variable rms : list sample -> Q.

Abbreviation listener := (VoiceListener sample).
Abbreviation block := (list sample).
Abbreviation step := (audio_cb_body rms).
Abbreviation speech := (is_speech rms).
Abbreviation shape := (Voice.shape rms).

Lemma segment_snoc (s : listener) (pre : list block) (b : block) :
  segment rms s (pre ++ [b]) = step (segment rms s pre) b.
Proof. unfold segment. now rewrite fold_left_app. Qed.

(** The three ways a block can go. *)
Lemma step_speech (s : listener) (b : block) :
  speech b = true ->
  step s b = {| _running := _running s;
                _audio_buffer := _audio_buffer s ++ [b];
                _silent_count := 0;
                _is_speaking := true;
                _queue := _queue s |}.
Proof. unfold is_speech, audio_cb_body. now intros ->. Qed.

Lemma step_idle_silence (s : listener) (b : block) :
  speech b = false -> _is_speaking s = false -> step s b = s.
Proof. unfold is_speech, audio_cb_body. now intros -> ->. Qed.

Lemma step_pending (s : listener) (b : block) :
  speech b = false -> _is_speaking s = true ->
  _silent_count s + 1 < 3 ->
  step s b = {| _running := _running s;
                _audio_buffer := _audio_buffer s ++ [b];
                _silent_count := _silent_count s + 1;
                _is_speaking := true;
                _queue := _queue s |}.
Proof.
  unfold is_speech, audio_cb_body. intros -> -> H.
  rewrite silence_blocks_value.
  destruct (Z.geb_spec (_silent_count s + 1) 3); [lia | reflexivity].
Qed.

Lemma step_commit (s : listener) (b : block) :
  speech b = false -> _is_speaking s = true ->
  3 <= _silent_count s + 1 ->
  step s b =
    {| _running := _running s;
       _audio_buffer := [];
       _silent_count := 0;
       _is_speaking := false;
       _queue :=
         if Qle_bool MIN_SPEECH_DURATION
              (duration_of (concatenate (_audio_buffer s ++ [b])))
         then _queue s ++ [Some (concatenate (_audio_buffer s ++ [b]))]
         else _queue s |}.
Proof.
  unfold is_speech, audio_cb_body. intros -> -> H.
  rewrite silence_blocks_value.
  destruct (Z.geb_spec (_silent_count s + 1) 3); [reflexivity | lia].
Qed.

Lemma shape_step (pre : list block) (s : listener) (b : block) :
  shape pre s -> shape (pre ++ [b]) (step s b).
Proof.
  unfold shape. intros H.
  destruct (speech b) eqn:Eb.
  - rewrite step_speech by assumption. cbn.
    destruct (_is_speaking s).
    + destruct H as (x & front & sp & tail & Hp & Hb & _).
      exists x, (_audio_buffer s), b, []. cbn.
      repeat split; auto; try lia.
      now rewrite Hp, app_assoc.
    + destruct H as (Hb & _).
      exists pre, [], b, []. rewrite Hb. cbn.
      repeat split; auto; lia.
  - destruct (_is_speaking s) eqn:Es.
    + destruct H as (x & front & sp & tail & Hp & Hb & Hsp & Ht & Hc & Hl).
      destruct (Z_lt_le_dec (_silent_count s + 1) 3) as [Hlt | Hge].
      * rewrite step_pending by assumption. cbn.
        exists x, front, sp, (tail ++ [b]).
        rewrite Hp, Hb, length_app. cbn.
        repeat split; auto.
        -- now rewrite <- !app_assoc.
        -- now rewrite <- app_assoc.
        -- apply Forall_app. split; auto.
        -- lia.
        -- lia.
      * rewrite step_commit by assumption. cbn. auto.
    + rewrite step_idle_silence by assumption. now rewrite Es.
Qed.

Lemma shape_started (pre : list block) : shape pre (segment rms started pre).
Proof.
  induction pre as [|b pre IH] using rev_ind.
  - cbn. auto.
  - rewrite segment_snoc. now apply shape_step.
Qed.

Lemma step_running (s : listener) (b : block) :
  _running (step s b) = _running s.
Proof.
  unfold audio_cb_body.
  destruct (Qgt_bool (rms b) SILENCE_THRESHOLD); [reflexivity |].
  destruct (_is_speaking s); [| reflexivity].
  now destruct (_silent_count s + 1 >=? silence_blocks).
Qed.

(** While the flag is set the device callback never aborts, and the
    stream leaves the fields as [segment] computes them. *)
Lemma feed_running (s : listener) (blocks : list block) :
  _running s = true -> feed rms s blocks = Returned (segment rms s blocks).
Proof.
  revert s. induction blocks as [| b blocks IH]; intros s Hr; cbn.
  - reflexivity.
  - unfold audio_cb. rewrite Hr. cbn. apply IH. now rewrite step_running.
Qed.

Lemma speech_iff (b : block) :
  speech b = true <-> (SILENCE_THRESHOLD < rms b)%Q.
Proof. apply Qgt_bool_iff. Qed.

Lemma silence_iff (b : block) :
  speech b = false <-> (rms b <= SILENCE_THRESHOLD)%Q.
Proof. apply Qgt_bool_false_iff. Qed.

Lemma two_last (A : Type) (l l' : list A) (a b c d : A) :
  l ++ [a; b] = l' ++ [c; d] -> a = c /\ b = d.
Proof.
  intros H.
  change (l ++ [a; b]) with (l ++ [a] ++ [b]) in H.
  change (l' ++ [c; d]) with (l' ++ [c] ++ [d]) in H.
  rewrite !app_assoc in H.
  apply app_inj_tail in H as [H ->].
  apply app_inj_tail in H as [_ ->]. auto.
Qed.

(** C4. From a fresh listener and over any stream, an Idle segmenter
    becomes Speaking on a block exactly when the block's RMS is strictly
    above the threshold; a Speaking segmenter becomes Idle on a block
    exactly when that block and the two before it all have RMS at most
    the threshold, and it then cuts its candidate (empty buffer, counter
    0); a block above the threshold leaves the silent-run counter at 0. *)
Theorem vad_transitions (pre : list block) (b : block) :
  let s := segment rms started pre in
  let s' := step s b in
  (_is_speaking s = false ->
     (_is_speaking s' = true <-> (SILENCE_THRESHOLD < rms b)%Q))
  /\ (_is_speaking s = true ->
      (_is_speaking s' = false <->
         exists front b1 b2,
           pre = front ++ [b1; b2]
           /\ (rms b1 <= SILENCE_THRESHOLD)%Q
           /\ (rms b2 <= SILENCE_THRESHOLD)%Q
           /\ (rms b <= SILENCE_THRESHOLD)%Q))
  /\ ((SILENCE_THRESHOLD < rms b)%Q -> _silent_count s' = 0)
  /\ (_is_speaking s = true -> _is_speaking s' = false ->
      _audio_buffer s' = [] /\ _silent_count s' = 0).
Proof.
  intros s s'. pose proof (shape_started pre) as Hs. fold s in Hs.
  unfold Voice.shape in Hs. subst s'.
  destruct (speech b) eqn:Eb.
  - (* a speech block *)
    pose proof (proj1 (speech_iff b) Eb) as Hgt.
    rewrite step_speech by assumption. cbn.
    split; [intros _; split; auto |].
    split; [intros _; split; [discriminate |] |].
    { intros (front & b1 & b2 & _ & _ & _ & Hle).
      exfalso. exact (Qlt_not_le _ _ Hgt Hle). }
    split; [auto | discriminate].
  - (* a silent block *)
    pose proof (proj1 (silence_iff b) Eb) as Hle.
    assert (Hno : ~ (SILENCE_THRESHOLD < rms b)%Q)
      by (intros Hgt; exact (Qlt_not_le _ _ Hgt Hle)).
    destruct (_is_speaking s) eqn:Es.
    + destruct Hs as (x & front & sp & tail & Hp & Hb & Hsp & Ht & Hc & Hl).
      split; [discriminate |].
      destruct (Z_lt_le_dec (_silent_count s + 1) 3) as [Hlt | Hge].
      * (* fewer than three in a row: still Speaking *)
        rewrite step_pending by assumption. cbn.
        split; [intros _; split; [discriminate |] |].
        { intros (front' & b1 & b2 & Hpre & H1 & H2 & _).
          exfalso. rewrite Hb in Hp. rewrite Hp in Hpre.
          apply silence_iff in H1, H2.
          destruct tail as [|t1 [|t2 tail]].
          - change (x ++ front ++ [sp]) with (x ++ front ++ [] ++ [sp]) in Hpre.
            change (front' ++ [b1; b2]) with (front' ++ [b1] ++ [b2]) in Hpre.
            rewrite !app_assoc in Hpre.
            apply app_inj_tail in Hpre as [_ ->]. congruence.
          - rewrite app_assoc in Hpre.
            apply two_last in Hpre as [-> _]. congruence.
          - cbn in Hc. lia. }
        split; [tauto | discriminate].
      * (* the third in a row: the candidate is cut *)
        rewrite step_commit by assumption. cbn.
        split; [intros _; split; [intros _ | reflexivity] |].
        { destruct tail as [|t1 [|t2 [|t3 tail]]]; cbn in Hc, Hl; try lia.
          exists (x ++ front ++ [sp]), t1, t2.
          pose proof (Forall_inv Ht) as H1.
          pose proof (Forall_inv (Forall_inv_tail Ht)) as H2. cbn in H1, H2.
          split; [rewrite Hp, Hb, <- !app_assoc; reflexivity |].
          split; [now apply silence_iff |].
          split; [now apply silence_iff | assumption]. }
        split; [tauto | auto].
    + rewrite step_idle_silence by assumption. rewrite Es.
      split; [intros _; split; [discriminate | tauto] |].
      split; [discriminate |].
      split; [tauto | discriminate].
Qed.

(** Durations, in samples. *)
Lemma duration_ge (u : block) (num : Z) (den : positive) :
  num * 16000 <= Z.of_nat (List.length u) * Zpos den ->
  (num # den <= duration_of u)%Q.
Proof.
  unfold duration_of, SAMPLE_RATE, Qle, Qdiv, Qmult, Qinv, inject_Z. cbn.
  lia.
Qed.

Lemma duration_lt (u : block) (num : Z) (den : positive) :
  (duration_of u < num # den)%Q ->
  Z.of_nat (List.length u) * Zpos den < num * 16000.
Proof.
  unfold duration_of, SAMPLE_RATE, Qlt, Qdiv, Qmult, Qinv, inject_Z. cbn.
  lia.
Qed.

Lemma step_queue (s : listener) (b : block) :
  _queue (step s b) = _queue s
  \/ exists u, _queue (step s b) = _queue s ++ [Some u]
               /\ (MIN_SPEECH_DURATION <= duration_of u)%Q.
Proof.
  unfold audio_cb_body.
  destruct (Qgt_bool (rms b) SILENCE_THRESHOLD); [now left |].
  destruct (_is_speaking s); [| now left].
  destruct (_silent_count s + 1 >=? silence_blocks); [| now left].
  cbn.
  destruct (Qle_bool MIN_SPEECH_DURATION _) eqn:E; [| now left].
  right. eexists. split; [reflexivity |]. now apply Qle_bool_iff.
Qed.

Lemma commits_iff (s : listener) (b : block) :
  commits rms s b = true <->
  speech b = false /\ _is_speaking s = true /\ 3 <= _silent_count s + 1.
Proof.
  unfold commits, is_speech. rewrite silence_blocks_value.
  rewrite !andb_true_iff, negb_true_iff.
  destruct (Z.geb_spec (_silent_count s + 1) 3);
    intuition (try lia; try discriminate; auto).
Qed.

(** C5. Over any stream, every item the segmenter has put in the queue
    is an utterance of at least the minimum duration; and whenever the
    silence run is complete (in any state of the fields) and the
    candidate is shorter than the minimum, the queue is left as it was
    and the candidate is dropped with the buffer. *)
Theorem only_long_utterances_enqueued (pre : list block) :
  Forall (fun item => exists u, item = Some u
                                /\ (MIN_SPEECH_DURATION <= duration_of u)%Q)
         (_queue (segment rms started pre))
  /\ (forall (s : listener) (b : block),
        commits rms s b = true ->
        (duration_of (concatenate (_audio_buffer s ++ [b]))
           < MIN_SPEECH_DURATION)%Q ->
        _queue (step s b) = _queue s /\ _audio_buffer (step s b) = []).
Proof.
  split.
  - induction pre as [|b pre IH] using rev_ind.
    + constructor.
    + rewrite segment_snoc.
      destruct (step_queue (segment rms started pre) b) as [-> | (u & -> & Hu)].
      * exact IH.
      * apply Forall_app. split; [exact IH |].
        constructor; [| constructor]. now exists u.
  - intros s b Hc Hshort.
    apply commits_iff in Hc as (Hb & Hs & Hn).
    rewrite step_commit by assumption. cbn.
    destruct (Qle_bool MIN_SPEECH_DURATION _) eqn:E; [| auto].
    apply Qle_bool_iff in E. exfalso. exact (Qlt_not_le _ _ Hshort E).
Qed.

Lemma length_concat_blocks (l : list block) (n : Z) :
  Forall (fun c => Z.of_nat (List.length c) = n) l ->
  Z.of_nat (List.length (List.concat l)) = n * Z.of_nat (List.length l).
Proof.
  induction 1 as [|c l Hc _ IH]; cbn [List.concat List.length].
  - lia.
  - rewrite length_app. lia.
Qed.

(** C10. When every block of the stream has [block_size] samples, a
    candidate cut at the end of a silence run ends in one speech block
    followed by three silent ones, lasts at least 2.0 s, and is put in
    the queue: the test of its duration against the minimum succeeds. *)
Theorem committed_candidate_enqueued (pre : list block) (b : block) :
  Forall (fun c => Z.of_nat (List.length c) = block_size) (pre ++ [b]) ->
  commits rms (segment rms started pre) b = true ->
  let s := segment rms started pre in
  let cand := _audio_buffer s ++ [b] in
  (exists front sp t1 t2,
      cand = front ++ [sp; t1; t2; b]
      /\ speech sp = true /\ speech t1 = false
      /\ speech t2 = false /\ speech b = false)
  /\ (2 <= duration_of (concatenate cand))%Q
  /\ _queue (step s b) = _queue s ++ [Some (concatenate cand)].
Proof.
  intros Hsize Hc s cand.
  apply commits_iff in Hc as (Hb & Hs & Hn). fold s in Hs, Hn.
  pose proof (shape_started pre) as Hshape. fold s in Hshape.
  unfold Voice.shape in Hshape. rewrite Hs in Hshape.
  destruct Hshape as (x & front & sp & tail & Hp & Hbuf & Hsp & Ht & Hcnt & Hl).
  destruct tail as [|t1 [|t2 [|t3 tail]]]; cbn in Hcnt, Hl; try lia.
  pose proof (Forall_inv Ht) as H1.
  pose proof (Forall_inv (Forall_inv_tail Ht)) as H2. cbn in H1, H2.
  assert (Hcand : cand = front ++ [sp; t1; t2; b]).
  { unfold cand. rewrite Hbuf, <- app_assoc. reflexivity. }
  assert (Hlen : 32000 <= Z.of_nat (List.length (concatenate cand))).
  { unfold concatenate.
    rewrite (length_concat_blocks cand block_size).
    - rewrite Hcand, length_app, block_size_value. cbn [List.length]. lia.
    - unfold cand. rewrite Hp, <- app_assoc in Hsize.
      now apply Forall_app in Hsize as [_ Hsize]. }
  split; [exists front, sp, t1, t2; auto |].
  split; [apply (duration_ge _ 2 1); lia |].
  rewrite step_commit by assumption. cbn. fold cand.
  assert (E : Qle_bool MIN_SPEECH_DURATION (duration_of (concatenate cand)) = true).
  { apply Qle_bool_iff. apply (duration_ge _ 1 2). lia. }
  now rewrite E.
Qed.


(** *** More on the segmenter *)

(** While Speaking, the buffer starts with a speech block. *)
Lemma buffer_onset (pre : list block) :
  _is_speaking (segment rms started pre) = true ->
  exists sp rest,
    _audio_buffer (segment rms started pre) = sp :: rest
    /\ speech sp = true.
Proof.
  induction pre as [| b pre IH] using rev_ind; [discriminate |].
  rewrite segment_snoc.
  pose proof (shape_started pre) as Hs. unfold Voice.shape in Hs.
  set (s := segment rms started pre) in *.
  destruct (speech b) eqn:Eb.
  - rewrite step_speech by assumption. cbn. intros _.
    destruct (_is_speaking s).
    + destruct (IH eq_refl) as (sp & rest & -> & Hsp).
      now exists sp, (rest ++ [b]).
    + destruct Hs as [-> _]. now exists b, [].
  - destruct (_is_speaking s) eqn:Es.
    + destruct (Z_lt_le_dec (_silent_count s + 1) 3) as [Hlt | Hge].
      * rewrite step_pending by assumption. cbn. intros _.
        destruct (IH eq_refl) as (sp & rest & -> & Hsp).
        now exists sp, (rest ++ [b]).
      * rewrite step_commit by assumption. discriminate.
    + rewrite step_idle_silence by assumption. congruence.
Qed.

(** Every utterance in the queue is the concatenation of one unbroken
    run of blocks of the stream, in stream order; the run starts with a
    speech block and ends with a speech block followed by three silent
    ones. *)
Theorem utterances_are_slices (pre : list block) (item : option block) :
  In item (_queue (segment rms started pre)) ->
  exists x seg y,
    pre = x ++ seg ++ y
    /\ item = Some (concatenate seg)
    /\ (exists sp0 rest0, seg = sp0 :: rest0 /\ speech sp0 = true)
    /\ (exists front sp t1 t2 t3,
          seg = front ++ [sp; t1; t2; t3]
          /\ speech sp = true /\ speech t1 = false
          /\ speech t2 = false /\ speech t3 = false).
Proof.
  induction pre as [| b pre IH] using rev_ind; [intros [] |].
  rewrite segment_snoc.
  pose proof (shape_started pre) as Hs. unfold Voice.shape in Hs.
  pose proof (buffer_onset pre) as Hon.
  set (s := segment rms started pre) in *.
  assert (Hold : In item (_queue s) ->
                 exists x seg y,
                   pre ++ [b] = x ++ seg ++ y
                   /\ item = Some (concatenate seg)
                   /\ (exists sp0 rest0, seg = sp0 :: rest0 /\ speech sp0 = true)
                   /\ (exists front sp t1 t2 t3,
                         seg = front ++ [sp; t1; t2; t3]
                         /\ speech sp = true /\ speech t1 = false
                         /\ speech t2 = false /\ speech t3 = false)).
  { intros Hin. destruct (IH Hin) as (x & seg & y & -> & Hrest).
    exists x, seg, (y ++ [b]). split; [| exact Hrest].
    now rewrite <- !app_assoc. }
  destruct (speech b) eqn:Eb.
  - rewrite step_speech by assumption. exact Hold.
  - destruct (_is_speaking s) eqn:Es.
    + destruct (Z_lt_le_dec (_silent_count s + 1) 3) as [Hlt | Hge].
      * rewrite step_pending by assumption. exact Hold.
      * rewrite step_commit by assumption. cbn [_queue].
        destruct (Qle_bool MIN_SPEECH_DURATION _); [| exact Hold].
        intros Hin. apply in_app_or in Hin as [Hin | [<- | []]];
          [now apply Hold |].
        destruct Hs as (x & front & sp & tail & Hp & Hb & Hsp & Ht & Hc & Hl).
        destruct tail as [| t1 [| t2 [| t3 tail]]]; cbn in Hc, Hl; try lia.
        pose proof (Forall_inv Ht) as H1.
        pose proof (Forall_inv (Forall_inv_tail Ht)) as H2. cbn in H1, H2.
        destruct (Hon eq_refl) as (sp0 & rest0 & Hhead & Hsp0).
        exists x, (_audio_buffer s ++ [b]), [].
        split; [now rewrite app_nil_r, app_assoc, <- Hp |].
        split; [reflexivity |].
        split.
        { exists sp0, (rest0 ++ [b]). now rewrite Hhead. }
        exists front, sp, t1, t2, b.
        split; [now rewrite Hb, <- app_assoc | auto].
    + rewrite step_idle_silence by assumption. exact Hold.
Qed.

(** A stream in which no block is above the threshold leaves a fresh
    listener as it was: nothing is buffered and nothing is put in the
    queue. *)
Theorem silence_changes_nothing (pre : list block) :
  Forall (fun b => (rms b <= SILENCE_THRESHOLD)%Q) pre ->
  segment rms started pre = started.
Proof.
  induction pre as [| b pre IH] using rev_ind; [reflexivity |].
  intros H. apply Forall_app in H as [Hpre Hb].
  rewrite segment_snoc, (IH Hpre).
  apply step_idle_silence; [| reflexivity].
  apply silence_iff. exact (Forall_inv Hb).
Qed.

(** An utterance takes at least four blocks of the stream, and the
    blocks held in the buffer are counted apart from them. *)
Theorem four_blocks_per_utterance (pre : list block) :
  (4 * List.length (_queue (segment rms started pre))
   + List.length (_audio_buffer (segment rms started pre))
   <= List.length pre)%nat.
Proof.
  induction pre as [| b pre IH] using rev_ind; [cbn; lia |].
  rewrite segment_snoc, length_app. cbn [List.length].
  pose proof (shape_started pre) as Hs. unfold Voice.shape in Hs.
  set (s := segment rms started pre) in *.
  destruct (speech b) eqn:Eb.
  - rewrite step_speech by assumption. cbn. rewrite length_app. cbn. lia.
  - destruct (_is_speaking s) eqn:Es.
    + destruct (Z_lt_le_dec (_silent_count s + 1) 3) as [Hlt | Hge].
      * rewrite step_pending by assumption. cbn. rewrite length_app. cbn. lia.
      * rewrite step_commit by assumption. cbn.
        destruct Hs as (x & front & sp & tail & Hp & Hb & Hsp & Ht & Hc & Hl).
        assert (Hbuf : (3 <= List.length (_audio_buffer s))%nat).
        { rewrite Hb, length_app. cbn. lia. }
        destruct (Qle_bool MIN_SPEECH_DURATION _);
          rewrite ?length_app; cbn; lia.
    + rewrite step_idle_silence by assumption. lia.
Qed.

End Segmenter.

(** A stream of one-sample blocks: the burst and its three silent blocks
    last four samples, so the candidate is dropped. *)
Example short_burst_discarded :
  let level := fun c : list bool =>
                 match c with true :: _ => 1%Q | _ => 0%Q end in
  let s := segment level started [[true]; [false]; [false]] in
  commits level s [false] = true
  /\ _queue (audio_cb_body level s [false]) = []
  /\ _is_speaking (audio_cb_body level s [false]) = false.
Proof. vm_compute. auto. Qed.

Lemma vad_transitions_witness :
  let level := fun c : list bool =>
                 match c with true :: _ => 1%Q | _ => 0%Q end in
  _is_speaking (segment level started [[true]]) = true
  /\ _is_speaking (segment level started [[true]; [false]; [false]; [false]])
     = false.
Proof.
  intros level.
  pose proof (vad_transitions bool level [] [true]) as (Hup & _).
  pose proof (vad_transitions bool level [[true]; [false]; [false]] [false])
    as (_ & Hdown & _).
  split.
  - apply (proj2 (Hup eq_refl)). reflexivity.
  - apply (proj2 (Hdown eq_refl)).
    exists [[true]], [false], [false].
    split; [reflexivity |]. repeat split; discriminate.
Defined.

Lemma only_long_utterances_enqueued_witness :
  let level := fun c : list bool =>
                 match c with true :: _ => 1%Q | _ => 0%Q end in
  let s := segment level started [[true]; [false]; [false]] in
  _queue (audio_cb_body level s [false]) = _queue s.
Proof.
  intros level s.
  refine (proj1 (proj2 (only_long_utterances_enqueued bool level []) s [false]
                   _ _)).
  - reflexivity.
  - reflexivity.
Defined.

Lemma committed_candidate_enqueued_witness :
  let level := fun c : list bool =>
                 match c with true :: _ => 1%Q | _ => 0%Q end in
  let loud := repeat true (Z.to_nat 8000) in
  let quiet := repeat false (Z.to_nat 8000) in
  let s := segment level started [loud; quiet; quiet] in
  Forall (fun c => Z.of_nat (List.length c) = block_size)
         ([loud; quiet; quiet] ++ [quiet])
  /\ commits level s quiet = true
  /\ (2 <= duration_of (concatenate (_audio_buffer s ++ [quiet])))%Q.
Proof.
  intros level loud quiet s.
  assert (Hsize : Forall (fun c => Z.of_nat (List.length c) = block_size)
                         ([loud; quiet; quiet] ++ [quiet])).
  { repeat constructor; vm_compute; reflexivity. }
  assert (Hc : commits level (segment level started [loud; quiet; quiet]) quiet
               = true).
  { vm_compute. reflexivity. }
  split; [exact Hsize |]. split; [exact Hc |].
  exact (proj1 (proj2
    (committed_candidate_enqueued bool level [loud; quiet; quiet] quiet
       Hsize Hc))).
Defined.

(** ** The worker and [stop] *)

Section Worker.

Variable sample : Type.
Variable transcribe_audio : list sample -> option (list ascii).

Abbreviation pipeline := (Pipeline sample).
Abbreviation wstep := (worker_step transcribe_audio).
Abbreviation wrun := (worker_run transcribe_audio).

Lemma worker_run_stuck (n : nat) (w : pipeline) :
  wstep w = None -> wrun n w = w.
Proof. destruct n; cbn; [reflexivity |]. now intros ->. Qed.

Lemma worker_run_step (n : nat) (w w' : pipeline) :
  wstep w = Some w' -> wrun (S n) w = wrun n w'.
Proof. cbn. now intros ->. Qed.

Ltac settle_worker :=
  cbn;
  repeat (rewrite worker_run_stuck by reflexivity; cbn);
  rewrite ?app_nil_r; auto.



(** *** More on the worker *)

Lemma worker_run_add (a b : nat) (w : pipeline) :
  wrun (a + b) w = wrun b (wrun a w).
Proof.
  revert w. induction a as [| a IH]; intros w; [reflexivity |].
  cbn [Nat.add worker_run].
  destruct (wstep w) as [w' |] eqn:E; [apply IH |].
  now rewrite worker_run_stuck.
Qed.

Lemma worker_drain (w : pipeline) (q : list (list sample))
    (rest : list (option (list sample))) :
  pc w = AtWhile ->
  _running (listener w) = true ->
  _queue (listener w) = map Some q ++ rest ->
  wrun (2 * List.length q) w
  = {| listener := set_queue (listener w) rest;
       pc := AtWhile;
       transcribed := transcribed w ++ q;
       heard := heard w
                ++ flat_map (fun audio =>
                               match transcribe_audio audio with
                               | Some text =>
                                   if passes_filter text then [text] else []
                               | None => []
                               end) q |}.
Proof.
  revert w. induction q as [| u q IH]; intros w Hpc Hrun Hq.
  - destruct w as [[run buf cnt spk que] p tr hd].
    cbn in *. subst. now rewrite !app_nil_r.
  - replace (2 * List.length (u :: q))%nat
      with (S (S (2 * List.length q))) by (cbn; lia).
    destruct w as [[run buf cnt spk que] p tr hd].
    cbn in Hpc, Hrun, Hq. subst p run que.
    erewrite worker_run_step by reflexivity.
    erewrite worker_run_step by reflexivity.
    rewrite IH by reflexivity.
    cbn. f_equal.
    + now rewrite <- app_assoc.
    + destruct (transcribe_audio u) as [text |]; [| reflexivity].
      destruct (passes_filter text); [| reflexivity].
      now rewrite <- app_assoc.
Qed.

(** While the flag is set, the worker takes the utterances at the head
    of the queue one by one, in queue order, two moves for each: every
    one goes to the engine, and the callback gets the texts that are
    not empty and do not start with a bracket. An exception of the
    engine or a filtered text does not stop the loop. *)
Theorem worker_drains_in_order (w : pipeline) (q : list (list sample))
    (rest : list (option (list sample))) :
  pc w = AtWhile ->
  _running (listener w) = true ->
  _queue (listener w) = map Some q ++ rest ->
  wrun (2 * List.length q) w
  = {| listener := set_queue (listener w) rest;
       pc := AtWhile;
       transcribed := transcribed w ++ q;
       heard := heard w
                ++ flat_map (fun audio =>
                               match transcribe_audio audio with
                               | Some text =>
                                   if passes_filter text then [text] else []
                               | None => []
                               end) q |}.
Proof. apply worker_drain. Qed.

(** After the utterances before it, the worker takes the sentinel out
    of the queue and leaves for good; what was queued behind the
    sentinel stays there and never reaches the engine. *)
Theorem worker_exits_at_sentinel (w : pipeline) (q : list (list sample))
    (behind : list (option (list sample))) (n : nat) :
  pc w = AtWhile ->
  _running (listener w) = true ->
  _queue (listener w) = map Some q ++ None :: behind ->
  (2 * List.length q + 2 <= n)%nat ->
  let w' := worker_run transcribe_audio n w in
  pc w' = Exited
  /\ _queue (listener w') = behind
  /\ transcribed w' = transcribed w ++ q.
Proof.
  intros Hpc Hrun Hq Hn w'. subst w'.
  replace n with (2 * List.length q + (2 + (n - (2 * List.length q + 2))))%nat
    by lia.
  rewrite worker_run_add.
  rewrite (worker_drain w q (None :: behind) Hpc Hrun Hq).
  rewrite worker_run_add.
  destruct w as [[run buf cnt spk que] p tr hd].
  cbn in Hrun. subst run. cbn.
  now rewrite worker_run_stuck.
Qed.

(** With the flag set and nothing but utterances in the queue, the
    worker takes them all and then waits in [get]: it does not leave. *)
Theorem worker_blocks_on_empty_queue (w : pipeline)
    (q : list (list sample)) (n : nat) :
  pc w = AtWhile ->
  _running (listener w) = true ->
  _queue (listener w) = map Some q ->
  (2 * List.length q + 1 <= n)%nat ->
  let w' := worker_run transcribe_audio n w in
  pc w' = AtGet
  /\ _queue (listener w') = []
  /\ transcribed w' = transcribed w ++ q
  /\ worker_step transcribe_audio w' = None.
Proof.
  intros Hpc Hrun Hq Hn w'. subst w'.
  replace n with (2 * List.length q + (1 + (n - (2 * List.length q + 1))))%nat
    by lia.
  rewrite worker_run_add.
  rewrite <- (app_nil_r (map Some q)) in Hq.
  rewrite (worker_drain w q [] Hpc Hrun Hq).
  rewrite worker_run_add.
  destruct w as [[run buf cnt spk que] p tr hd].
  cbn in Hrun. subst run. cbn.
  now rewrite worker_run_stuck.
Qed.

End Worker.




(** *** Instances for the segmenter and the worker *)

Lemma utterances_are_slices_witness :
  let level := fun c : list bool =>
                 match c with true :: _ => 1%Q | _ => 0%Q end in
  let loud := repeat true (Z.to_nat 8000) in
  let stream := [[false]; loud; [false]; [false]; [false]; [false]] in
  exists x seg y,
    stream = x ++ seg ++ y
    /\ Some (loud ++ [false; false; false]) = Some (concatenate seg)
    /\ (exists sp0 rest0, seg = sp0 :: rest0 /\ is_speech level sp0 = true)
    /\ (exists front sp t1 t2 t3,
          seg = front ++ [sp; t1; t2; t3]
          /\ is_speech level sp = true /\ is_speech level t1 = false
          /\ is_speech level t2 = false /\ is_speech level t3 = false).
Proof.
  intros level loud stream.
  apply (utterances_are_slices bool level stream
           (Some (loud ++ [false; false; false]))).
  vm_compute. left. reflexivity.
Defined.

Lemma silence_changes_nothing_witness :
  let level := fun c : list bool =>
                 match c with true :: _ => 1%Q | _ => 0%Q end in
  segment level started [[false]; []; [false; false]] = started.
Proof.
  intros level.
  apply (silence_changes_nothing bool level).
  repeat (constructor; [apply Qle_bool_imp_le; reflexivity |]).
  constructor.
Defined.

Lemma worker_drains_in_order_witness :
  let engine := fun a : list nat =>
                  match a with
                  | [1%nat] => Some ["o"; "k"]%char
                  | [2%nat] => Some ["["; "x"; "]"]%char
                  | _ => None
                  end in
  let w := {| listener := set_queue started
                            [Some [1%nat]; Some [2%nat]; Some [3%nat]; None];
              pc := AtWhile; transcribed := []; heard := [] |} in
  worker_run engine 6 w
  = {| listener := set_queue started [None];
       pc := AtWhile;
       transcribed := [[1%nat]; [2%nat]; [3%nat]];
       heard := [["o"; "k"]%char] |}.
Proof.
  intros engine w.
  exact (worker_drains_in_order nat engine w
           [[1%nat]; [2%nat]; [3%nat]] [None] eq_refl eq_refl eq_refl).
Defined.

Lemma worker_exits_at_sentinel_witness :
  let engine := fun _ : list nat => Some ["o"; "k"]%char in
  let w := {| listener := set_queue started
                            [Some [1%nat]; None; Some [2%nat]];
              pc := AtWhile; transcribed := []; heard := [] |} in
  pc (worker_run engine 9 w) = Exited
  /\ _queue (listener (worker_run engine 9 w)) = [Some [2%nat]]
  /\ transcribed (worker_run engine 9 w) = [[1%nat]].
Proof.
  intros engine w.
  refine (worker_exits_at_sentinel nat engine w [[1%nat]] [Some [2%nat]] 9
            eq_refl eq_refl eq_refl _).
  cbn. lia.
Defined.

Lemma worker_blocks_on_empty_queue_witness :
  let engine := fun _ : list nat => Some ["o"; "k"]%char in
  let w := {| listener := set_queue started [Some [1%nat]];
              pc := AtWhile; transcribed := []; heard := [] |} in
  pc (worker_run engine 7 w) = AtGet
  /\ _queue (listener (worker_run engine 7 w)) = []
  /\ transcribed (worker_run engine 7 w) = [[1%nat]]
  /\ worker_step engine (worker_run engine 7 w) = None.
Proof.
  intros engine w.
  refine (worker_blocks_on_empty_queue nat engine w [[1%nat]] 7
            eq_refl eq_refl eq_refl _).
  cbn. lia.
Defined.

End VoiceFacts.

(** ** The dispatch and the session loop *)

Module MainFacts.
Import Main.

(** ** The wake-word gate *)

(** Greedy [+]: whatever it returns comes from a run of the class of
    one or more characters, followed by a success of the rest. *)
Lemma plus_sound (A : Type) (cls : ascii -> bool)
    (k : pystr -> ascii -> pystr -> option A) (s acc : pystr) (x : A) :
  plus_greedy cls k acc s = Some x ->
  exists run c rest,
    s = run ++ c :: rest
    /\ forallb cls run = true /\ cls c = true
    /\ k (acc ++ run ++ [c]) c rest = Some x.
Proof.
  revert acc. induction s as [| a r IH]; intros acc H; cbn in H.
  - discriminate.
  - destruct (cls a) eqn:Ea; [| discriminate].
    destruct (plus_greedy cls k (acc ++ [a]) r) as [y |] eqn:Er.
    + injection H as ->.
      destruct (IH _ Er) as (run & c & rest & -> & Hrun & Hc & Hk).
      exists (a :: run), c, rest. cbn. rewrite Ea, Hrun.
      repeat split; auto.
      now rewrite <- app_assoc in Hk.
    + exists [], a, r. cbn. auto.
Qed.

(** And it finds a match whenever some run of the class is followed by
    a success of the rest. *)
Lemma plus_complete (A : Type) (cls : ascii -> bool)
    (k : pystr -> ascii -> pystr -> option A) (run : pystr) (c : ascii)
    (rest acc : pystr) :
  forallb cls run = true -> cls c = true ->
  k (acc ++ run ++ [c]) c rest <> None ->
  plus_greedy cls k acc (run ++ c :: rest) <> None.
Proof.
  revert acc. induction run as [| a run IH]; intros acc Hrun Hc Hk; cbn.
  - rewrite Hc. cbn in Hk.
    now destruct (plus_greedy cls k (acc ++ [c]) rest).
  - cbn in Hrun. apply andb_true_iff in Hrun as [Ha Hrun]. rewrite Ha.
    assert (Hin : plus_greedy cls k (acc ++ [a]) (run ++ c :: rest) <> None).
    { apply IH; auto. now rewrite <- app_assoc. }
    now destruct (plus_greedy cls k (acc ++ [a]) (run ++ c :: rest)).
Qed.

(** When the rest always succeeds, [+] stops at the first character
    outside the class, or at the end. *)
Lemma plus_last (A : Type) (cls : ascii -> bool) (f : pystr -> A)
    (s acc : pystr) (x : A) :
  plus_greedy cls (fun cap _ _ => Some (f cap)) acc s = Some x ->
  exists g rest,
    s = g ++ rest /\ g <> [] /\ forallb cls g = true
    /\ (rest = [] \/ exists c r, rest = c :: r /\ cls c = false)
    /\ x = f (acc ++ g).
Proof.
  revert acc. induction s as [| a r IH]; intros acc H; cbn in H.
  - discriminate.
  - destruct (cls a) eqn:Ea; [| discriminate].
    destruct (plus_greedy cls (fun cap _ _ => Some (f cap)) (acc ++ [a]) r)
      as [y |] eqn:Er.
    + injection H as ->.
      destruct (IH _ Er) as (g & rest & -> & _ & Hg & Hrest & ->).
      exists (a :: g), rest. cbn. rewrite Ea, Hg, <- app_assoc.
      repeat split; auto. discriminate.
    + injection H as <-.
      exists [a], r. cbn. rewrite Ea.
      repeat split; auto; try discriminate.
      destruct r as [| c r']; [now left | right].
      cbn in Er. destruct (cls c) eqn:Ec; [| eauto].
      now destruct (plus_greedy cls (fun cap _ _ => Some (f cap))
                      ((acc ++ [a]) ++ [c]) r').
Qed.

Lemma last_cons (A : Type) (a d : A) (l : list A) :
  last (a :: l) d = last l a.
Proof.
  revert a d. induction l as [| b l IH]; intros a d; [reflexivity |].
  change (last (a :: b :: l) d) with (last (b :: l) d).
  now rewrite !IH.
Qed.

(** [search] returns a match at some place of the text... *)
Lemma search_sound (p : list re_item) (s : pystr) (prev : option ascii)
    (m : option pystr) :
  search_from p prev s = Some m ->
  exists pre rest,
    s = pre ++ rest
    /\ match_here p None (last (map Some pre) prev) rest = Some m.
Proof.
  revert prev. induction s as [| c r IH]; intros prev H; cbn in H.
  - destruct (match_here p None prev []) eqn:E; [| discriminate].
    injection H as ->. now exists [], [].
  - destruct (match_here p None prev (c :: r)) eqn:E.
    + injection H as ->. now exists [], (c :: r).
    + destruct (IH _ H) as (pre & rest & -> & Hm).
      exists (c :: pre), rest. split; [reflexivity |].
      cbn [map]. now rewrite last_cons.
Qed.

(** ... and finds one whenever the pattern matches at some place. *)
Lemma search_complete (p : list re_item) (pre rest : pystr)
    (prev : option ascii) :
  match_here p None (last (map Some pre) prev) rest <> None ->
  search_from p prev (pre ++ rest) <> None.
Proof.
  revert prev. induction pre as [| c pre IH]; intros prev H.
  - cbn in H. destruct rest; cbn;
      now destruct (match_here p None prev _).
  - cbn [map] in H. rewrite last_cons in H. cbn.
    destruct (match_here p None prev (c :: pre ++ rest)); [discriminate |].
    now apply IH.
Qed.

Lemma wake_letter_is_word (c : ascii) :
  lit_matches "o" c = true -> is_word c = true.
Proof.
  destruct c as [[] [] [] [] [] [] [] []]; vm_compute; congruence.
Qed.

Lemma lit_matches_lower (a c : ascii) :
  lit_matches a c = true <-> ascii_lower c = ascii_lower a.
Proof.
  unfold lit_matches. rewrite Ascii.eqb_eq. split; congruence.
Qed.

Lemma not_dot_is_newline (c : ascii) : is_dot c = false -> c = "010"%char.
Proof.
  destruct c as [[] [] [] [] [] [] [] []]; vm_compute; congruence.
Qed.

Lemma word_start_iff (pre : pystr) :
  word_before (last (map Some pre) None) = false <-> at_word_start pre.
Proof.
  unfold at_word_start.
  destruct pre as [| a l] using rev_ind.
  - cbn. split; auto.
  - rewrite map_app. cbn [map]. rewrite last_last. cbn. split.
    + intros H. right. now exists l, a.
    + intros [H | (pre' & p & H & Hp)].
      * now destruct l.
      * apply app_inj_tail in H as [_ ->]. exact Hp.
Qed.

(** What a match of [_WAKE_RE] at one place looks like. *)
Lemma wake_here_sound (prev : option ascii) (s : pystr)
    (m : option pystr) :
  match_here _WAKE_RE None prev s = Some m ->
  exists w seps g rest,
    s = w ++ seps ++ g ++ rest
    /\ word_before prev = false
    /\ is_wake_token w
    /\ seps <> [] /\ forallb is_sep seps = true
    /\ g <> [] /\ forallb is_dot g = true
    /\ (rest = [] \/ exists r, rest = "010"%char :: r)
    /\ m = Some g.
Proof.
  unfold _WAKE_RE. cbn [match_here]. intros H.
  destruct (at_boundary prev s) eqn:Eb; [| discriminate].
  destruct s as [| o [| b [| c r]]]; try discriminate;
    destruct (lit_matches "o" o) eqn:Eo; try discriminate;
    try (destruct (lit_matches "b" b) eqn:Ebb; discriminate).
  destruct (lit_matches "b" b) eqn:Ebb; [| discriminate].
  destruct (lit_matches "s" c) eqn:Es; [| discriminate].
  apply plus_sound in H as (run & sc & rest0 & -> & Hrun & Hsc & H).
  apply (plus_last _ is_dot (@Some pystr)) in H
    as (g & rest & -> & Hg & Hdots & Hrest & ->).
  exists [o; b; c], (run ++ [sc]), g, rest.
  split; [now rewrite <- !app_assoc |].
  split.
  { unfold at_boundary in Eb. cbn [word_after] in Eb.
    rewrite (wake_letter_is_word o Eo) in Eb.
    now destruct (word_before prev). }
  split.
  { unfold is_wake_token. cbn [map].
    apply lit_matches_lower in Eo, Ebb, Es. now rewrite Eo, Ebb, Es. }
  split; [now destruct run |].
  split; [rewrite forallb_app; cbn; now rewrite Hrun, Hsc |].
  split; [exact Hg |]. split; [exact Hdots |].
  split; [| reflexivity].
  destruct Hrest as [-> | (x & r' & -> & Hx)]; [now left | right].
  exists r'. now rewrite (not_dot_is_newline x Hx).
Qed.

Lemma wake_token_letters (w : pystr) :
  is_wake_token w ->
  exists o b c, w = [o; b; c]
    /\ lit_matches "o" o = true /\ lit_matches "b" b = true
    /\ lit_matches "s" c = true.
Proof.
  unfold is_wake_token. intros H.
  destruct w as [| o [| b [| c [| x w]]]]; cbn in H; try discriminate.
  injection H as Ho Hb Hc.
  exists o, b, c. rewrite !lit_matches_lower. auto.
Qed.

Lemma wake_here_complete (prev : option ascii) (w seps : pystr)
    (c : ascii) (rest : pystr) :
  word_before prev = false ->
  is_wake_token w ->
  seps <> [] -> forallb is_sep seps = true ->
  is_dot c = true ->
  match_here _WAKE_RE None prev (w ++ seps ++ c :: rest) <> None.
Proof.
  intros Hprev Hw Hne Hseps Hc.
  destruct (wake_token_letters w Hw) as (o & b & s & -> & Ho & Hb & Hs).
  destruct (exists_last Hne) as (run & sc & ->).
  rewrite forallb_app in Hseps. cbn in Hseps.
  apply andb_true_iff in Hseps as [Hrun Hsc].
  apply andb_true_iff in Hsc as [Hsc _].
  unfold _WAKE_RE. cbn [match_here app].
  unfold at_boundary. cbn [word_after].
  rewrite Hprev, (wake_letter_is_word o Ho), Ho, Hb, Hs. cbn [xorb].
  rewrite <- app_assoc. cbn [app].
  apply plus_complete; auto.
  cbn. rewrite Hc.
  now destruct (plus_greedy is_dot _ _ rest).
Qed.

Section Relay.

Variable sample : Type.
Variable client : Type.
Variable connect_obs : Z -> json -> option client * pystr.
Variable agent_run : nat -> json -> option client -> attempt.

Abbreviation session := (Session sample client).
Abbreviation dispatch := (_run_agent_non_stream agent_run).
Abbreviation relay := (_handle_agent_stream agent_run).
Abbreviation turn_of := (chat_turn connect_obs agent_run).
Abbreviation loop_of := (chat_loop connect_obs agent_run).

(** The loop of [_run_agent_non_stream], one attempt at a time. *)
Lemma dispatch_unfold (m : json) (d : option client) (n : nat) :
  dispatch m d n =
  match agent_run n m d with
  | Output o =>
      if blank o then
        match agent_run (S n) m d with
        | Output o' =>
            if blank o' then
              match agent_run (S (S n)) m d with
              | Output o'' =>
                  if blank o'' then (Returns apology_empty, S (S (S n)))
                  else (Returns (match o'' with Some t => t | None => [] end),
                        S (S (S n)))
              | Raises e => (Fails e, S (S (S n)))
              | DeadlineExpires => (Cancelled, S (S (S n)))
              end
            else (Returns (match o' with Some t => t | None => [] end),
                  S (S n))
        | Raises e =>
            if transient e then
              match agent_run (S (S n)) m d with
              | Output o'' =>
                  if blank o'' then (Returns apology_empty, S (S (S n)))
                  else (Returns (match o'' with Some t => t | None => [] end),
                        S (S (S n)))
              | Raises e' => (Fails e', S (S (S n)))
              | DeadlineExpires => (Cancelled, S (S (S n)))
              end
            else (Fails e, S (S n))
        | DeadlineExpires => (Cancelled, S (S n))
        end
      else (Returns (match o with Some t => t | None => [] end), S n)
  | Raises e =>
      if transient e then
        match agent_run (S n) m d with
        | Output o' =>
            if blank o' then
              match agent_run (S (S n)) m d with
              | Output o'' =>
                  if blank o'' then (Returns apology_empty, S (S (S n)))
                  else (Returns (match o'' with Some t => t | None => [] end),
                        S (S (S n)))
              | Raises e' => (Fails e', S (S (S n)))
              | DeadlineExpires => (Cancelled, S (S (S n)))
              end
            else (Returns (match o' with Some t => t | None => [] end),
                  S (S n))
        | Raises e' =>
            if transient e' then
              match agent_run (S (S n)) m d with
              | Output o'' =>
                  if blank o'' then (Returns apology_empty, S (S (S n)))
                  else (Returns (match o'' with Some t => t | None => [] end),
                        S (S (S n)))
              | Raises e'' => (Fails e'', S (S (S n)))
              | DeadlineExpires => (Cancelled, S (S (S n)))
              end
            else (Fails e', S (S n))
        | DeadlineExpires => (Cancelled, S (S n))
        end
      else (Fails e, S n)
  | DeadlineExpires => (Cancelled, S n)
  end.
Proof.
  unfold _run_agent_non_stream. cbn [attempts_loop].
  change (0 <? max_attempts - 1) with true.
  change (1 <? max_attempts - 1) with true.
  change (2 <? max_attempts - 1) with false.
  repeat match goal with
         | |- context [match agent_run ?k m d with _ => _ end] =>
             destruct (agent_run k m d)
         | |- context [blank ?o] => destruct (blank o)
         | |- context [transient ?e] => destruct (transient e); cbn [andb]
         end; reflexivity.
Qed.

Lemma relay_of_dispatch (m : json) (d : option client) (n : nat) :
  relay m d n =
  (match fst (dispatch m d n) with
   | Returns result => [stream_start; stream_delta result; stream_end]
   | Cancelled => [stream_start; error timeout_text]
   | Fails e =>
       if exn_class_eqb (exc_class e) TimeoutError
       then [stream_start; error timeout_text]
       else [stream_start; error (exc_str e)]
   end, snd (dispatch m d n)).
Proof.
  unfold _handle_agent_stream.
  destruct (dispatch m d n) as [[t | e |] k]; cbn; try reflexivity.
  now destruct (exn_class_eqb (exc_class e) TimeoutError).
Qed.

Lemma not_timeout_class (e : exn) :
  exc_class e <> TimeoutError ->
  exn_class_eqb (exc_class e) TimeoutError = false.
Proof. destruct (exc_class e); cbn; congruence. Qed.

(** C2, what the code does. When every attempt raises the same error of
    the transient class (and not of the timeout class), the dispatch
    makes three attempts and then fails with that error, and the relay
    sends it to the connection as an [error] message. *)
Theorem transient_errors_end_as_error (e : exn) (m : json)
    (d : option client) (n : nat) :
  (forall k, agent_run k m d = Raises e) ->
  transient e = true ->
  exc_class e <> TimeoutError ->
  dispatch m d n = (Fails e, S (S (S n)))
  /\ relay m d n = ([stream_start; error (exc_str e)], S (S (S n))).
Proof.
  intros Hrun Ht Hc.
  assert (Hd : dispatch m d n = (Fails e, S (S (S n)))).
  { rewrite dispatch_unfold, !Hrun, Ht. reflexivity. }
  split; [exact Hd |].
  rewrite relay_of_dispatch, Hd. cbn.
  now rewrite not_timeout_class.
Qed.

(** C7. Two blank results and then a valid one: the dispatch returns
    the valid text after exactly three calls and the relay sends only
    the start, that text and the end. Blank results at every call: the
    dispatch returns the fixed apology after three calls and the relay
    sends it between start and end, with no [error] message. *)
Theorem blank_results_retried (m : json) (d : option client) (n : nat) :
  (forall o1 o2 t,
      agent_run n m d = Output o1 -> blank o1 = true ->
      agent_run (S n) m d = Output o2 -> blank o2 = true ->
      agent_run (S (S n)) m d = Output (Some t) -> blank (Some t) = false ->
      dispatch m d n = (Returns t, S (S (S n)))
      /\ relay m d n
         = ([stream_start; stream_delta t; stream_end], S (S (S n))))
  /\ ((forall k, exists o, agent_run k m d = Output o /\ blank o = true) ->
      dispatch m d n = (Returns apology_empty, S (S (S n)))
      /\ relay m d n
         = ([stream_start; stream_delta apology_empty; stream_end],
            S (S (S n)))).
Proof.
  split.
  - intros o1 o2 t H1 B1 H2 B2 H3 B3.
    assert (Hd : dispatch m d n = (Returns t, S (S (S n)))).
    { rewrite dispatch_unfold, H1, B1, H2, B2, H3, B3. reflexivity. }
    split; [exact Hd |]. now rewrite relay_of_dispatch, Hd.
  - intros Hall.
    destruct (Hall n) as (o1 & H1 & B1).
    destruct (Hall (S n)) as (o2 & H2 & B2).
    destruct (Hall (S (S n))) as (o3 & H3 & B3).
    assert (Hd : dispatch m d n = (Returns apology_empty, S (S (S n)))).
    { rewrite dispatch_unfold, H1, B1, H2, B2, H3, B3. reflexivity. }
    split; [exact Hd |]. now rewrite relay_of_dispatch, Hd.
Qed.

Lemma relay_starts (m : json) (d : option client) (n : nat) :
  exists rest, fst (relay m d n) = stream_start :: rest.
Proof.
  rewrite relay_of_dispatch.
  destruct (dispatch m d n) as [[t | e |] k]; cbn; eauto.
  destruct (exn_class_eqb (exc_class e) TimeoutError); eauto.
Qed.

(** A chat message whose content is not empty goes to the relay, and
    the loop goes on with the next event. *)
Lemma message_turn (st : session) (data m : json) :
  get data (str "type") (JStr []) = Ok (JStr (str "message")) ->
  get data (str "content") (JStr []) = Ok m ->
  truthy m = true ->
  turn_of st (Loaded data)
  = Continue (with_calls st (snd (relay m (deps_obs_client st) (calls st))))
             (fst (relay m (deps_obs_client st) (calls st))).
Proof.
  intros Ht Hc Hm. unfold chat_turn, on_data.
  rewrite Ht. cbn [bind].
  change (eq_str (JStr (str "message")) "message") with true. cbv iota.
  rewrite Hc. cbn [bind]. rewrite Hm. cbn [negb].
  now destruct (relay m (deps_obs_client st) (calls st)).
Qed.

(** C6, as the code has it. A dispatch always starts with
    [stream_start]. When the executor's text comes back (at once when
    the first attempt returns text that is not blank) there follow one
    [stream_delta] with that text and [stream_end]. When the wait is cut
    at its deadline, and also when the exception that leaves the
    dispatch is itself of the timeout class, the reply is [error] with
    the fixed timeout text and there is no [stream_end]. Any other
    exception that leaves the dispatch (at once when the first attempt
    raises one that is not transient) gives [error] with the exception's
    text. In each case the turn of the session loop that ran the
    dispatch ends back at the receive point, and the loop goes on to
    read the events that follow. *)
Theorem dispatch_envelope (st : session) (data m : json)
    (rest : list inbound) :
  get data (str "type") (JStr []) = Ok (JStr (str "message")) ->
  get data (str "content") (JStr []) = Ok m ->
  truthy m = true ->
  let d := deps_obs_client st in
  let n := calls st in
  let sent := fst (relay m d n) in
  let st' := with_calls st (snd (relay m d n)) in
  (exists more, sent = stream_start :: more)
  /\ (forall t, fst (dispatch m d n) = Returns t ->
                sent = [stream_start; stream_delta t; stream_end])
  /\ (forall t, agent_run n m d = Output (Some t) -> blank (Some t) = false ->
                sent = [stream_start; stream_delta t; stream_end])
  /\ (fst (dispatch m d n) = Cancelled ->
      sent = [stream_start; error timeout_text])
  /\ (agent_run n m d = DeadlineExpires ->
      sent = [stream_start; error timeout_text])
  /\ (forall e, fst (dispatch m d n) = Fails e ->
                sent = [stream_start;
                        error (if exn_class_eqb (exc_class e) TimeoutError
                               then timeout_text else exc_str e)])
  /\ (forall e, agent_run n m d = Raises e -> transient e = false ->
                sent = [stream_start;
                        error (if exn_class_eqb (exc_class e) TimeoutError
                               then timeout_text else exc_str e)])
  /\ turn_of st (Loaded data) = Continue st' sent
  /\ loop_of st (Loaded data :: rest)
     = (sent ++ fst (loop_of st' rest), snd (loop_of st' rest)).
Proof.
  intros Ht Hc Hm d n sent st'.
  pose proof (message_turn st data m Ht Hc Hm) as Hturn.
  fold d n in Hturn. fold sent st' in Hturn.
  split; [apply relay_starts |].
  split.
  { intros t Hd. unfold sent. rewrite relay_of_dispatch, Hd. reflexivity. }
  split.
  { intros t Ho Hb. unfold sent.
    rewrite relay_of_dispatch, dispatch_unfold, Ho, Hb. reflexivity. }
  split.
  { intros Hd. unfold sent. rewrite relay_of_dispatch, Hd. reflexivity. }
  split.
  { intros Hd. unfold sent.
    rewrite relay_of_dispatch, dispatch_unfold, Hd. reflexivity. }
  split.
  { intros e Hd. unfold sent. rewrite relay_of_dispatch, Hd. cbn.
    now destruct (exn_class_eqb (exc_class e) TimeoutError). }
  split.
  { intros e He Hnt. unfold sent.
    rewrite relay_of_dispatch, dispatch_unfold, He, Hnt. cbn.
    now destruct (exn_class_eqb (exc_class e) TimeoutError). }
  split; [exact Hturn |].
  cbn [chat_loop]. rewrite Hturn.
  now destruct (loop_of st' rest).
Qed.

(** The type field of a dict, with the default of [data.get]. *)
Lemma get_type_dict (items : list (pystr * json)) :
  get (JDict items) (str "type") (JStr [])
  = Ok (match assoc (str "type") items with
        | Some v => v
        | None => JStr []
        end).
Proof. reflexivity. Qed.

Lemma loop_skip (st : session) (i : inbound) (rest : list inbound) :
  turn_of st i = Continue st [] -> loop_of st (i :: rest) = loop_of st rest.
Proof.
  intros H. cbn [chat_loop]. rewrite H.
  now destruct (loop_of st rest).
Qed.

Lemma loop_crash (st : session) (i : inbound) (rest : list inbound)
    (e : exn) :
  turn_of st i = Crashed e st ->
  loop_of st (i :: rest) = ([], Crashed e st).
Proof. intros H. cbn [chat_loop]. now rewrite H. Qed.

(** C3, as the code has it. A JSON object whose type is missing or is
    none of the four known ones causes no action and the loop reads on.
    Text that is not JSON, a JSON value that is not an object, and a
    connect request whose port [int] rejects each raise an exception
    that no clause of the loop catches: the function ends there, with
    nothing sent, and the events that follow are not read. *)
Theorem malformed_messages (st : session) (rest : list inbound) :
  (forall items,
      let ty := match assoc (str "type") items with
                | Some v => v
                | None => JStr []
                end in
      eq_str ty "message" = false -> eq_str ty "obs_connect" = false ->
      eq_str ty "voice_start" = false -> eq_str ty "voice_stop" = false ->
      turn_of st (Loaded (JDict items)) = Continue st []
      /\ loop_of st (Loaded (JDict items) :: rest) = loop_of st rest)
  /\ (let e := {| exc_class := JSONDecodeError; exc_str := [] |} in
      turn_of st Undecodable = Crashed e st
      /\ loop_of st (Undecodable :: rest) = ([], Crashed e st))
  /\ (forall data,
        (forall items, data <> JDict items) ->
        let e := {| exc_class := AttributeError; exc_str := [] |} in
        turn_of st (Loaded data) = Crashed e st
        /\ loop_of st (Loaded data :: rest) = ([], Crashed e st))
  /\ (forall data p e,
        get data (str "type") (JStr []) = Ok (JStr (str "obs_connect")) ->
        get data (str "port") (JInt 4455) = Ok p ->
        py_int p = Raise e ->
        turn_of st (Loaded data) = Crashed e st
        /\ loop_of st (Loaded data :: rest) = ([], Crashed e st)).
Proof.
  split; [| split; [| split]].
  - intros items ty H1 H2 H3 H4.
    assert (Ht : turn_of st (Loaded (JDict items)) = Continue st []).
    { unfold chat_turn, on_data. rewrite get_type_dict. cbn [bind].
      fold ty. now rewrite H1, H2, H3, H4. }
    split; [exact Ht | now apply loop_skip].
  - cbn zeta. split; [reflexivity | now apply loop_crash].
  - intros data Hnd e.
    assert (Ht : turn_of st (Loaded data) = Crashed e st).
    { destruct data; try reflexivity. now destruct (Hnd items). }
    split; [exact Ht | now apply loop_crash].
  - intros data p e Hty Hp He.
    assert (Ht : turn_of st (Loaded data) = Crashed e st).
    { unfold chat_turn, on_data. rewrite Hty. cbn [bind].
      change (eq_str (JStr (str "obs_connect")) "message") with false.
      change (eq_str (JStr (str "obs_connect")) "obs_connect") with true.
      cbv iota. rewrite Hp. cbn [bind]. rewrite He. reflexivity. }
    split; [exact Ht | now apply loop_crash].
Qed.

Lemma voice_start_turn (st : session) (data : json) :
  get data (str "type") (JStr []) = Ok (JStr (str "voice_start")) ->
  turn_of st (Loaded data) = Continue (voice_start st) [voice_status true].
Proof.
  intros H. unfold chat_turn, on_data. rewrite H. reflexivity.
Qed.

Lemma voice_stop_turn (st : session) (data : json) :
  get data (str "type") (JStr []) = Ok (JStr (str "voice_stop")) ->
  turn_of st (Loaded data) = Continue (voice_stop st) [voice_status false].
Proof.
  intros H. unfold chat_turn, on_data. rewrite H. reflexivity.
Qed.

Lemma voice_start_running (st : session) :
  listener_running (voice_start st) = true.
Proof.
  unfold voice_start. destruct (listener_running st) eqn:E; [exact E |].
  reflexivity.
Qed.

Lemma voice_start_idle (st : session) :
  listener_running st = true -> voice_start st = st.
Proof. unfold voice_start. now intros ->. Qed.

Lemma voice_stop_idle (st : session) :
  listener_running st = false -> voice_stop st = st.
Proof.
  unfold voice_stop, listener_running.
  destruct (listener st) as [l |]; [| reflexivity]. now intros ->.
Qed.

Lemma filter_stopped (l : list (Voice.VoiceListener sample)) :
  Forall (fun x => Voice._running x = false) l ->
  filter (@Voice._running sample) l = [].
Proof.
  induction 1 as [| x l Hx _ IH]; cbn; [reflexivity |]. now rewrite Hx.
Qed.

(** C9. A start request while a listener runs, and a stop request while
    none runs, leave every variable of the session as it was and are
    answered with the status [true], respectively [false]. Two start
    requests in a row are both answered with the status [true], the
    second one changes nothing, and when the listeners retired before
    are all stopped, exactly one listener runs afterwards. *)
Theorem voice_requests_idempotent (st : session) (vstart vstop : json) :
  get vstart (str "type") (JStr []) = Ok (JStr (str "voice_start")) ->
  get vstop (str "type") (JStr []) = Ok (JStr (str "voice_stop")) ->
  (listener_running st = true ->
   turn_of st (Loaded vstart) = Continue st [voice_status true])
  /\ (listener_running st = false ->
      turn_of st (Loaded vstop) = Continue st [voice_status false])
  /\ (let st1 := voice_start st in
      turn_of st (Loaded vstart) = Continue st1 [voice_status true]
      /\ turn_of st1 (Loaded vstart) = Continue st1 [voice_status true]
      /\ loop_of st [Loaded vstart; Loaded vstart]
         = ([voice_status true; voice_status true], Continue st1 [])
      /\ listener_running st1 = true
      /\ (Forall (fun l => Voice._running l = false) (retired st) ->
          running_listeners st1 = 1%nat)).
Proof.
  intros Hs He.
  split; [| split].
  - intros Hr. rewrite (voice_start_turn st vstart Hs).
    now rewrite voice_start_idle.
  - intros Hr. rewrite (voice_stop_turn st vstop He).
    now rewrite voice_stop_idle.
  - intros st1.
    assert (H1 : turn_of st (Loaded vstart) = Continue st1 [voice_status true])
      by exact (voice_start_turn st vstart Hs).
    assert (H2 : turn_of st1 (Loaded vstart) = Continue st1 [voice_status true]).
    { rewrite (voice_start_turn st1 vstart Hs).
      now rewrite (voice_start_idle st1 (voice_start_running st)). }
    split; [exact H1 |]. split; [exact H2 |].
    split; [cbn [chat_loop]; now rewrite H1, H2 |].
    split; [apply voice_start_running |].
    intros Hret. unfold st1, voice_start, running_listeners, listener_running.
    destruct (listener st) as [l |] eqn:El.
    + destruct (Voice._running l) eqn:Er.
      * rewrite El. cbn. rewrite Er, (filter_stopped _ Hret). reflexivity.
      * cbn. rewrite Er, (filter_stopped _ Hret). reflexivity.
    + cbn. now rewrite (filter_stopped _ Hret).
Qed.

Lemma wake_command_some (text command : pystr) :
  wake_command text = Some command ->
  exists pre w seps g rest,
    py_strip text = pre ++ w ++ seps ++ g ++ rest
    /\ at_word_start pre
    /\ is_wake_token w
    /\ seps <> [] /\ forallb is_sep seps = true
    /\ g <> [] /\ forallb is_dot g = true
    /\ (rest = [] \/ exists r, rest = "010"%char :: r)
    /\ command = py_strip g.
Proof.
  unfold wake_command, re_search. intros H.
  destruct (search_from _WAKE_RE None (py_strip text)) as [[g |] |] eqn:E;
    try discriminate.
  injection H as <-.
  apply search_sound in E as (pre & rest0 & Ht & Hm).
  apply wake_here_sound in Hm
    as (w & seps & g' & rest & -> & Hb & Hw & Hne & Hs & Hg & Hd & Hr & Heq).
  injection Heq as ->.
  exists pre, w, seps, g', rest.
  rewrite word_start_iff in Hb. repeat split; auto.
Qed.

Lemma wake_command_found (text pre w seps : pystr) (c : ascii)
    (rest : pystr) :
  py_strip text = pre ++ w ++ seps ++ c :: rest ->
  at_word_start pre -> is_wake_token w ->
  seps <> [] -> forallb is_sep seps = true -> is_dot c = true ->
  wake_command text <> None.
Proof.
  intros Ht Hpre Hw Hne Hs Hc.
  apply word_start_iff in Hpre.
  pose proof (wake_here_complete _ w seps c rest Hpre Hw Hne Hs Hc) as Hm.
  apply search_complete in Hm. rewrite <- Ht in Hm.
  unfold wake_command, re_search.
  destruct (search_from _WAKE_RE None (py_strip text)) as [m |] eqn:E;
    [| contradiction].
  apply search_sound in E as (pre' & rest' & _ & E).
  apply wake_here_sound in E as (_ & _ & g & _ & _ & _ & _ & _ & _ & _ & _ & _ & ->).
  discriminate.
Qed.

(** *** More on the dispatch *)

Ltac by_attempts :=
  rewrite dispatch_unfold;
  repeat match goal with
         | |- context [match agent_run ?k ?m ?d with _ => _ end] =>
             let E := fresh "E" in destruct (agent_run k m d) eqn:E
         | |- context [if blank ?o then _ else _] =>
             let B := fresh "B" in destruct (blank o) eqn:B
         | |- context [if transient ?e then _ else _] =>
             let T := fresh "T" in destruct (transient e) eqn:T
         end.

(** A dispatch calls the executor at least once and at most three
    times. *)
Theorem dispatch_call_budget (m : json) (d : option client) (n : nat) :
  (S n <= snd (dispatch m d n) <= n + 3)%nat.
Proof. by_attempts; cbn; lia. Qed.

Lemma not_blank_some (o : option pystr) :
  blank o = false -> exists t, o = Some t.
Proof. destruct o as [t |]; [eauto | discriminate]. Qed.

(** Where the end of a dispatch comes from: a returned text is either
    the output of one of its calls, which was not blank, or the apology
    for blank results; an error is one that a call raised; a
    cancellation is a call cut at the deadline. The apology written
    after the loop of the source is never what the dispatch itself
    returns. *)
Theorem dispatch_provenance (m : json) (d : option client) (n : nat) :
  match fst (dispatch m d n) with
  | Returns t =>
      t = apology_empty
      \/ exists k, (n <= k < n + 3)%nat
                   /\ agent_run k m d = Output (Some t)
                   /\ blank (Some t) = false
  | Fails e => exists k, (n <= k < n + 3)%nat /\ agent_run k m d = Raises e
  | Cancelled =>
      exists k, (n <= k < n + 3)%nat /\ agent_run k m d = DeadlineExpires
  end.
Proof.
  by_attempts; cbn [fst];
    repeat match goal with
           | B : blank ?o = false |- _ =>
               is_var o; destruct (not_blank_some o B) as [? ->]
           end;
    try (now left);
    try (right);
    first [ exists n; split; [lia | now auto]
          | exists (S n); split; [lia | now auto]
          | exists (S (S n)); split; [lia | now auto] ].
Qed.

(** When the first two attempts each end blank or with a transient
    error, in any mix, the third attempt alone decides: its text, the
    apology when it is blank too, and its error even when that error
    is transient. *)
Theorem third_attempt_decides (m : json) (d : option client) (n : nat) :
  match agent_run n m d with
  | Output o => blank o = true
  | Raises e => transient e = true
  | DeadlineExpires => False
  end ->
  match agent_run (S n) m d with
  | Output o => blank o = true
  | Raises e => transient e = true
  | DeadlineExpires => False
  end ->
  dispatch m d n
  = (match agent_run (S (S n)) m d with
     | Output o =>
         if blank o then Returns apology_empty
         else Returns (match o with Some t => t | None => [] end)
     | Raises e => Fails e
     | DeadlineExpires => Cancelled
     end, S (S (S n))).
Proof.
  intros H1 H2. rewrite dispatch_unfold.
  destruct (agent_run n m d) as [o1 | e1 |]; [| | contradiction];
    rewrite H1;
    (destruct (agent_run (S n) m d) as [o2 | e2 |]; [| | contradiction]);
    rewrite H2;
    destruct (agent_run (S (S n)) m d) as [o3 | e3 |]; try reflexivity;
    now destruct (blank o3).
Qed.

(** An attempt that ends with text, with an error that is not
    transient, or at the deadline is the last one: the first such
    attempt ends the dispatch after a single call. *)
Theorem decisive_first_attempt (m : json) (d : option client) (n : nat) :
  (forall t, agent_run n m d = Output (Some t) -> blank (Some t) = false ->
             dispatch m d n = (Returns t, S n))
  /\ (forall e, agent_run n m d = Raises e -> transient e = false ->
                dispatch m d n = (Fails e, S n))
  /\ (agent_run n m d = DeadlineExpires -> dispatch m d n = (Cancelled, S n)).
Proof.
  split; [| split].
  - intros t H B. now rewrite dispatch_unfold, H, B.
  - intros e H T. now rewrite dispatch_unfold, H, T.
  - intros H. now rewrite dispatch_unfold, H.
Qed.


(** *** More on the session loop *)

(** A chat message whose content is missing or empty (or any other
    false value) is skipped: nothing is sent, the executor is not
    called and the loop reads on. *)
Theorem empty_message_ignored (st : session) (data m : json)
    (rest : list inbound) :
  get data (str "type") (JStr []) = Ok (JStr (str "message")) ->
  get data (str "content") (JStr []) = Ok m ->
  truthy m = false ->
  turn_of st (Loaded data) = Continue st []
  /\ loop_of st (Loaded data :: rest) = loop_of st rest.
Proof.
  intros Ht Hc Hm.
  assert (H : turn_of st (Loaded data) = Continue st []).
  { unfold chat_turn, on_data. rewrite Ht. cbn [bind].
    change (eq_str (JStr (str "message")) "message") with true. cbv iota.
    rewrite Hc. cbn [bind]. now rewrite Hm. }
  split; [exact H | now apply loop_skip].
Qed.

(** A connect request whose port [int] accepts: the connector is called
    once with that port and the password, its handle replaces both the
    global and the one in [deps], also when it is [None] after a failed
    attempt, and the reply tells whether a handle came back. *)
Theorem connect_request (st : session) (data p pw : json) (port : Z) :
  get data (str "type") (JStr []) = Ok (JStr (str "obs_connect")) ->
  get data (str "port") (JInt 4455) = Ok p ->
  py_int p = Ok port ->
  get data (str "password") (JStr []) = Ok pw ->
  let c := fst (connect_obs port pw) in
  let st' := turn_state (turn_of st (Loaded data)) in
  turn_of st (Loaded data)
  = Continue (with_client st c)
      [obs_status (match c with Some _ => true | None => false end)
         (snd (connect_obs port pw))]
  /\ obs_client st' = c /\ deps_obs_client st' = c
  /\ listener st' = listener st /\ calls st' = calls st.
Proof.
  intros Ht Hp Hi Hw c st'.
  assert (H : turn_of st (Loaded data)
              = Continue (with_client st c)
                  [obs_status (match c with Some _ => true | None => false end)
                     (snd (connect_obs port pw))]).
  { unfold chat_turn, on_data. rewrite Ht. cbn [bind].
    change (eq_str (JStr (str "obs_connect")) "message") with false.
    change (eq_str (JStr (str "obs_connect")) "obs_connect") with true.
    cbv iota. rewrite Hp. cbn [bind]. rewrite Hi. cbn [bind].
    rewrite Hw. cbn [bind]. unfold c.
    now destruct (connect_obs port pw). }
  split; [exact H |]. unfold st'. rewrite H. cbn. auto.
Qed.

(** A connect request that names neither port nor password tries port
    4455 with the empty password. *)
Theorem connect_defaults (st : session) (items : list (pystr * json)) :
  assoc (str "type") items = Some (JStr (str "obs_connect")) ->
  assoc (str "port") items = None ->
  assoc (str "password") items = None ->
  let r := connect_obs 4455 (JStr []) in
  turn_of st (Loaded (JDict items))
  = Continue (with_client st (fst r))
      [obs_status (match fst r with Some _ => true | None => false end)
         (snd r)].
Proof.
  intros Ht Hp Hw r.
  unfold chat_turn, on_data, get. rewrite Ht. cbn [bind].
  change (eq_str (JStr (str "obs_connect")) "message") with false.
  change (eq_str (JStr (str "obs_connect")) "obs_connect") with true.
  cbv iota. rewrite Hp, Hw. cbn [bind py_int]. unfold r.
  now destruct (connect_obs 4455 (JStr [])).
Qed.

Lemma running_of_stopped (st : session) :
  Forall (fun l => Voice._running l = false) (retired st) ->
  running_listeners st = (if listener_running st then 1 else 0)%nat.
Proof.
  intros H. unfold running_listeners, listener_running.
  destruct (listener st) as [l |]; cbn.
  - rewrite (filter_stopped _ H). now destruct (Voice._running l).
  - now rewrite (filter_stopped _ H).
Qed.

Lemma voice_start_retired (st : session) :
  Forall (fun l => Voice._running l = false) (retired st) ->
  Forall (fun l => Voice._running l = false) (retired (voice_start st)).
Proof.
  intros H. unfold voice_start, listener_running.
  destruct (listener st) as [l |] eqn:El; cbn.
  - destruct (Voice._running l) eqn:Er; [exact H |].
    cbn. now constructor.
  - exact H.
Qed.

Lemma voice_stop_retired (st : session) :
  Forall (fun l => Voice._running l = false) (retired st) ->
  Forall (fun l => Voice._running l = false) (retired (voice_stop st)).
Proof.
  intros H. unfold voice_stop.
  destruct (listener st) as [l |]; [| exact H].
  destruct (Voice._running l); [| exact H].
  cbn. now constructor.
Qed.

Lemma on_data_retired (st st' : session) (data : json)
    (sent : list outmsg) :
  on_data connect_obs agent_run st data = Ok (st', sent) ->
  Forall (fun l => Voice._running l = false) (retired st) ->
  Forall (fun l => Voice._running l = false) (retired st').
Proof.
  unfold on_data. intros H Hinv.
  destruct (get data (str "type") (JStr [])) as [ty | e]; [| discriminate].
  cbn [bind] in H.
  destruct (eq_str ty "message").
  { destruct (get data (str "content") (JStr [])) as [m | e]; [| discriminate].
    cbn [bind] in H.
    destruct (negb (truthy m)); [now injection H as <- _ |].
    destruct (relay m (deps_obs_client st) (calls st)).
    now injection H as <- _. }
  destruct (eq_str ty "obs_connect").
  { destruct (get data (str "port") (JInt 4455)) as [p | e]; [| discriminate].
    cbn [bind] in H.
    destruct (py_int p) as [port | e]; [| discriminate].
    cbn [bind] in H.
    destruct (get data (str "password") (JStr [])) as [pw | e];
      [| discriminate].
    cbn [bind] in H.
    destruct (connect_obs port pw). now injection H as <- _. }
  destruct (eq_str ty "voice_start").
  { injection H as <- _. now apply voice_start_retired. }
  destruct (eq_str ty "voice_stop").
  { injection H as <- _. now apply voice_stop_retired. }
  now injection H as <- _.
Qed.

Lemma loop_retired (events : list inbound) (st : session) :
  Forall (fun l => Voice._running l = false) (retired st) ->
  Forall (fun l => Voice._running l = false)
         (retired (turn_state (snd (loop_of st events)))).
Proof.
  revert st. induction events as [| i events IH]; intros st Hinv.
  - exact Hinv.
  - cbn [chat_loop]. destruct i as [| | data]; cbn [chat_turn].
    + cbn. destruct (listener st) as [l |]; [| exact Hinv].
      now destruct (Voice._running l).
    + exact Hinv.
    + destruct (on_data connect_obs agent_run st data) as [[st' sent] | e]
        eqn:E; [| exact Hinv].
      pose proof (IH st' (on_data_retired st st' data sent E Hinv)) as H.
      now destruct (loop_of st' events).
Qed.

(** At most one listener per session. From a session whose retired
    listeners are all stopped, as at its start, and over any sequence of
    inbound events, they stay so: at most one listener runs, it is the
    one the variable names, and when the loop has ended on a disconnect
    none runs. *)
Theorem one_listener_per_session (st : session) (events : list inbound) :
  Forall (fun l => Voice._running l = false) (retired st) ->
  let t := snd (loop_of st events) in
  Forall (fun l => Voice._running l = false) (retired (turn_state t))
  /\ running_listeners (turn_state t)
     = (if listener_running (turn_state t) then 1 else 0)%nat
  /\ (forall st', t = Closed st' -> running_listeners st' = 0%nat).
Proof.
  intros Hinv t.
  pose proof (loop_retired events st Hinv) as Hret. fold t in Hret.
  split; [exact Hret |]. split; [now apply running_of_stopped |].
  intros st' Ht.
  assert (Hrun : listener_running st' = false).
  { clear Hret. subst t. revert st Hinv Ht.
    induction events as [| i events IH]; intros st Hinv Ht.
    - discriminate.
    - cbn [chat_loop] in Ht. destruct i as [| | data]; cbn [chat_turn] in Ht.
      + cbn in Ht. injection Ht as <-. unfold listener_running.
        destruct (listener st) as [l |] eqn:El; [| now rewrite El].
        destruct (Voice._running l) eqn:Er; cbn; [reflexivity |].
        now rewrite El.
      + discriminate.
      + destruct (on_data connect_obs agent_run st data) as [[st1 sent] | e]
          eqn:E; [| discriminate].
        apply (IH st1 (on_data_retired st st1 data sent E Hinv)).
        now destruct (loop_of st1 events). }
  rewrite Ht in Hret. cbn in Hret.
  now rewrite (running_of_stopped st' Hret), Hrun.
Qed.


End Relay.

(** *** Instances *)

Lemma transient_errors_end_as_error_witness :
  let e := {| exc_class := OtherException;
              exc_str := str "invalid_request_error" |} in
  let agent := fun (_ : nat) (_ : json) (_ : option nat) => Raises e in
  _handle_agent_stream agent (JStr (str "hide webcam")) None 0
  = ([stream_start; error (str "invalid_request_error")], 3%nat).
Proof.
  intros e agent.
  refine (proj2 (transient_errors_end_as_error nat agent e
                   (JStr (str "hide webcam")) None 0 _ _ _)).
  - reflexivity.
  - reflexivity.
  - discriminate.
Defined.

Lemma blank_results_retried_witness :
  let agent := fun (k : nat) (_ : json) (_ : option nat) =>
                 match k with
                 | O | S O => Output (Some (str "  "))
                 | _ => Output (Some (str "Done"))
                 end in
  let mute := fun (_ : nat) (_ : json) (_ : option nat) => Output None in
  _handle_agent_stream agent (JStr (str "hide webcam")) None 0
  = ([stream_start; stream_delta (str "Done"); stream_end], 3%nat)
  /\ _handle_agent_stream mute (JStr (str "hide webcam")) None 0
     = ([stream_start; stream_delta apology_empty; stream_end], 3%nat).
Proof.
  intros agent mute. split.
  - refine (proj2 (proj1 (blank_results_retried nat agent
                            (JStr (str "hide webcam")) None 0)
                     (Some (str "  ")) (Some (str "  ")) (str "Done")
                     _ _ _ _ _ _)); reflexivity.
  - refine (proj2 (proj2 (blank_results_retried nat mute
                            (JStr (str "hide webcam")) None 0) _)).
    intros k. exists None. split; reflexivity.
Defined.

(** An executor that itself raises an exception of the timeout class,
    well within the deadline: the connection gets the fixed timeout
    text, not the exception's own. *)
Lemma executor_timeout_gets_fixed_text :
  let e := {| exc_class := TimeoutError;
              exc_str := str "upstream timed out" |} in
  let agent := fun (_ : nat) (_ : json) (_ : option nat) => Raises e in
  _handle_agent_stream agent (JStr (str "hide webcam")) None 0
  = ([stream_start; error timeout_text], 1%nat)
  /\ _handle_agent_stream agent (JStr (str "hide webcam")) None 0
     <> ([stream_start; error (exc_str e)], 1%nat).
Proof.
  cbv zeta. split; [reflexivity |]. vm_compute. discriminate.
Qed.

Lemma dispatch_envelope_witness :
  let agent := fun (_ : nat) (_ : json) (_ : option nat) =>
                 Output (Some (str "Done")) in
  let connect := fun (_ : Z) (_ : json) => (@None nat, str "refused") in
  let data := JDict [(str "type", JStr (str "message"));
                     (str "content", JStr (str "hide webcam"))] in
  let st := new_session None : Session nat nat in
  chat_turn connect agent st (Loaded data)
  = Continue (with_calls st 1)
      [stream_start; stream_delta (str "Done"); stream_end].
Proof.
  intros agent connect data st.
  refine (proj1 (proj2 (proj2 (proj2 (proj2 (proj2 (proj2 (proj2
    (dispatch_envelope nat nat connect agent st data
       (JStr (str "hide webcam")) [] _ _ _))))))))); reflexivity.
Defined.

Lemma voice_requests_idempotent_witness :
  let agent := fun (_ : nat) (_ : json) (_ : option nat) => Output None in
  let connect := fun (_ : Z) (_ : json) => (@None nat, str "refused") in
  let vstart := JDict [(str "type", JStr (str "voice_start"))] in
  let st := new_session None : Session nat nat in
  chat_loop connect agent st [Loaded vstart; Loaded vstart]
  = ([voice_status true; voice_status true], Continue (voice_start st) [])
  /\ running_listeners (voice_start st) = 1%nat.
Proof.
  intros agent connect vstart st.
  pose proof (voice_requests_idempotent nat nat connect agent st vstart
                (JDict [(str "type", JStr (str "voice_stop"))])
                eq_refl eq_refl) as (_ & _ & _ & _ & Hloop & _ & Hone).
  split; [exact Hloop |]. apply Hone. constructor.
Defined.

(** A connect request whose port is not a number, and a text that is
    not JSON: the exception leaves [websocket_chat]. *)
Lemma non_integer_port_ends_session :
  let agent := fun (_ : nat) (_ : json) (_ : option nat) => Output None in
  let connect := fun (_ : Z) (_ : json) => (@None nat, str "refused") in
  let data := JDict [(str "type", JStr (str "obs_connect"));
                     (str "port", JStr (str "abc"))] in
  let st := new_session None : Session nat nat in
  chat_turn connect agent st (Loaded data)
  = Crashed {| exc_class := ValueError; exc_str := [] |} st
  /\ chat_turn connect agent st Undecodable
     = Crashed {| exc_class := JSONDecodeError; exc_str := [] |} st
  /\ chat_turn connect agent st (Loaded data) <> Continue st [].
Proof.
  cbv zeta. split; [reflexivity |]. split; [reflexivity | discriminate].
Qed.

Lemma malformed_messages_witness :
  let agent := fun (_ : nat) (_ : json) (_ : option nat) => Output None in
  let connect := fun (_ : Z) (_ : json) => (@None nat, str "refused") in
  let st := new_session None : Session nat nat in
  chat_turn connect agent st
    (Loaded (JDict [(str "type", JStr (str "reboot"))]))
  = Continue st []
  /\ chat_turn connect agent st (Loaded (JDict [(str "content", JInt 1)]))
     = Continue st [].
Proof.
  intros agent connect st. split.
  - refine (proj1 (proj1 (malformed_messages nat nat connect agent st [])
                     [(str "type", JStr (str "reboot"))] _ _ _ _));
      reflexivity.
  - refine (proj1 (proj1 (malformed_messages nat nat connect agent st [])
                     [(str "content", JInt 1)] _ _ _ _));
      reflexivity.
Defined.

(** The token and a separator with nothing after them: no command. And
    a command is cut at the end of its line. *)
Lemma wake_token_alone_gives_no_command :
  wake_command (str "obs,") = None
  /\ (str "obs," = [] ++ str "obs" ++ str "," ++ []
      /\ at_word_start [] /\ is_wake_token (str "obs")
      /\ forallb is_sep (str ",") = true)
  /\ wake_command ["o"; "b"; "s"; " "; "g"; "o"; "010"; "u"; "p"]%char
     = Some (str "go").
Proof.
  split; [vm_compute; reflexivity |].
  split; [| vm_compute; reflexivity].
  split; [reflexivity |]. split; [now left |].
  split; reflexivity.
Qed.

(** *** Instances for the dispatch and the loop *)

Lemma third_attempt_decides_witness :
  let e := {| exc_class := OtherException; exc_str := str "nil content" |} in
  let agent := fun (k : nat) (_ : json) (_ : option nat) =>
                 match k with
                 | O => Raises e
                 | S O => Output None
                 | _ => Raises e
                 end in
  _run_agent_non_stream agent (JStr (str "go")) None 0 = (Fails e, 3%nat).
Proof.
  intros e agent.
  exact (third_attempt_decides nat agent (JStr (str "go")) None 0
           eq_refl eq_refl).
Defined.

Lemma decisive_first_attempt_witness :
  let e := {| exc_class := OtherException; exc_str := str "boom" |} in
  let agent := fun (_ : nat) (_ : json) (_ : option nat) => Raises e in
  _run_agent_non_stream agent (JStr (str "go")) None 0 = (Fails e, 1%nat).
Proof.
  intros e agent.
  exact (proj1 (proj2 (decisive_first_attempt nat agent (JStr (str "go"))
                         None 0)) e eq_refl eq_refl).
Defined.

Lemma empty_message_ignored_witness :
  let agent := fun (_ : nat) (_ : json) (_ : option nat) =>
                 Output (Some (str "Done")) in
  let connect := fun (_ : Z) (_ : json) => (@None nat, str "refused") in
  let st := new_session None : Session nat nat in
  chat_turn connect agent st
    (Loaded (JDict [(str "type", JStr (str "message"))]))
  = Continue st [].
Proof.
  intros agent connect st.
  exact (proj1 (empty_message_ignored nat nat connect agent st
                  (JDict [(str "type", JStr (str "message"))]) (JStr []) []
                  eq_refl eq_refl eq_refl)).
Defined.

Lemma connect_request_witness :
  let agent := fun (_ : nat) (_ : json) (_ : option nat) => Output None in
  let connect := fun (port : Z) (_ : json) =>
                   if port =? 4460 then (Some 7%nat, str "Connected")
                   else (None, str "refused") in
  let data := JDict [(str "type", JStr (str "obs_connect"));
                     (str "port", JStr (str " 4_460 "));
                     (str "password", JStr (str "secret"))] in
  let st := new_session None : Session nat nat in
  chat_turn connect agent st (Loaded data)
  = Continue (with_client st (Some 7%nat))
      [obs_status true (str "Connected")].
Proof.
  intros agent connect data st.
  exact (proj1 (connect_request nat nat connect agent st data
                  (JStr (str " 4_460 ")) (JStr (str "secret")) 4460
                  eq_refl eq_refl eq_refl eq_refl)).
Defined.

Lemma connect_defaults_witness :
  let agent := fun (_ : nat) (_ : json) (_ : option nat) => Output None in
  let connect := fun (port : Z) (_ : json) =>
                   if port =? 4455 then (Some 7%nat, str "Connected")
                   else (None, str "refused") in
  let st := new_session None : Session nat nat in
  chat_turn connect agent st
    (Loaded (JDict [(str "type", JStr (str "obs_connect"))]))
  = Continue (with_client st (Some 7%nat))
      [obs_status true (str "Connected")].
Proof.
  intros agent connect st.
  exact (connect_defaults nat nat connect agent st
           [(str "type", JStr (str "obs_connect"))]
           eq_refl eq_refl eq_refl).
Defined.

Lemma one_listener_per_session_witness :
  let agent := fun (_ : nat) (_ : json) (_ : option nat) => Output None in
  let connect := fun (_ : Z) (_ : json) => (@None nat, str "refused") in
  let vstart := Loaded (JDict [(str "type", JStr (str "voice_start"))]) in
  let vstop := Loaded (JDict [(str "type", JStr (str "voice_stop"))]) in
  let st := new_session None : Session nat nat in
  let t := snd (chat_loop connect agent st
                  [vstart; vstop; vstart; vstart; Disconnect; vstart]) in
  running_listeners (turn_state t) = 0%nat.
Proof.
  intros agent connect vstart vstop st t.
  refine (proj2 (proj2 (one_listener_per_session nat nat connect agent st
                          [vstart; vstop; vstart; vstart; Disconnect; vstart]
                          _))
            (turn_state t) _).
  - constructor.
  - reflexivity.
Defined.


End MainFacts.

(** ** The tools *)

Module ToolFacts.
Import Main.

Lemma pystr_eqb_eq (a b : pystr) : pystr_eqb a b = true <-> a = b.
Proof.
  unfold pystr_eqb. destruct (list_eq_dec ascii_dec a b); split;
    congruence.
Qed.

Lemma lower_keeps_space (c : ascii) :
  is_space (py_lower_char c) = is_space c.
Proof. destruct c as [[] [] [] [] [] [] [] []]; reflexivity. Qed.

(** What [lstrip] takes away is blank, and what it leaves does not
    start with a blank. *)
Lemma lstrip_split (s : pystr) :
  exists blanks, s = blanks ++ lstrip s /\ forallb is_space blanks = true.
Proof.
  induction s as [| c r (blanks & IH & Hb)]; [now exists [] |].
  cbn. destruct (is_space c) eqn:E.
  - exists (c :: blanks). cbn. rewrite E, Hb. split; [now f_equal | reflexivity].
  - now exists [].
Qed.

Lemma lstrip_head (s r : pystr) (c : ascii) :
  lstrip s = c :: r -> is_space c = false.
Proof.
  induction s as [| a s IH]; cbn; [discriminate |].
  destruct (is_space a) eqn:E; [exact IH |].
  intros H. now injection H as <- _.
Qed.

Lemma rstrip_split (s : pystr) :
  exists blanks, s = rstrip s ++ blanks /\ forallb is_space blanks = true.
Proof.
  destruct (lstrip_split (rev s)) as (blanks & H & Hb).
  exists (rev blanks). split.
  - unfold rstrip. rewrite <- rev_app_distr, <- H. now rewrite rev_involutive.
  - rewrite forallb_forall in *. intros x Hx. apply Hb. now apply in_rev.
Qed.

Lemma rstrip_last (s r : pystr) (c : ascii) :
  rstrip s = r ++ [c] -> is_space c = false.
Proof.
  unfold rstrip. intros H.
  apply (f_equal (@rev ascii)) in H.
  rewrite rev_involutive, rev_app_distr in H. cbn in H.
  exact (lstrip_head _ _ _ H).
Qed.

(** A stripped text has no blank at either end. *)
Lemma strip_ends (s : pystr) :
  (forall c r, py_strip s = c :: r -> is_space c = false)
  /\ (forall r c, py_strip s = r ++ [c] -> is_space c = false).
Proof.
  split.
  - intros c r H. unfold py_strip in H.
    destruct (rstrip_split (lstrip s)) as (blanks & Hs & _).
    rewrite H in Hs. cbn in Hs. exact (lstrip_head _ _ _ Hs).
  - intros r c H. exact (rstrip_last _ _ _ H).
Qed.

Lemma strip_blank (s : pystr) :
  forallb is_space s = true -> py_strip s = [].
Proof.
  intros H. unfold py_strip.
  assert (E : lstrip s = []).
  { induction s as [| c r IH]; [reflexivity |].
    cbn in H. apply andb_true_iff in H as [Hc Hr].
    cbn. rewrite Hc. now apply IH. }
  now rewrite E.
Qed.

Lemma lower_blank (s : pystr) :
  forallb is_space (py_lower s) = forallb is_space s.
Proof.
  unfold py_lower. induction s as [| c r IH]; [reflexivity |].
  cbn. now rewrite lower_keeps_space, IH.
Qed.

(** *** [_exact_match_source] *)

Lemma first_match_some (q : pystr) (sources : list json) (src : json) :
  first_match q sources = Ok (Some src) <->
  exists before after,
    sources = before ++ src :: after
    /\ Forall (names_other q) before /\ names q src.
Proof.
  induction sources as [| x rest IH]; cbn.
  - split; [discriminate |].
    intros (before & after & H & _). now destruct before.
  - split.
    + intros H.
      destruct (subscript x "sourceName") as [v | e] eqn:Ev; [| discriminate].
      cbn [bind] in H.
      destruct v as [| | | | nm | |]; try discriminate. cbn in H.
      destruct (pystr_eqb (py_lower nm) q) eqn:Eq.
      * injection H as <-. exists [], rest.
        split; [reflexivity |]. split; [constructor |].
        exists nm. split; [exact Ev | now apply pystr_eqb_eq].
      * apply IH in H as (before & after & -> & Hb & Hs).
        exists (x :: before), after.
        split; [reflexivity |]. split; [| exact Hs].
        constructor; [| exact Hb].
        exists nm. split; [exact Ev |].
        intros E. apply pystr_eqb_eq in E. congruence.
    + intros (before & after & H & Hb & Hs).
      destruct before as [| y before]; cbn in H; injection H as -> ->.
      * destruct Hs as (nm & -> & Hq). cbn.
        apply pystr_eqb_eq in Hq. now rewrite Hq.
      * pose proof (Forall_inv Hb) as (nm & -> & Hq). cbn.
        destruct (pystr_eqb (py_lower nm) q) eqn:Eq;
          [apply pystr_eqb_eq in Eq; contradiction |].
        apply IH. exists before, after.
        split; [reflexivity |]. split; [exact (Forall_inv_tail Hb) | exact Hs].
Qed.

Lemma first_match_none (q : pystr) (sources : list json) :
  first_match q sources = Ok None <-> Forall (names_other q) sources.
Proof.
  induction sources as [| x rest IH]; cbn.
  - split; [constructor | reflexivity].
  - split.
    + intros H.
      destruct (subscript x "sourceName") as [v | e] eqn:Ev; [| discriminate].
      cbn [bind] in H.
      destruct v as [| | | | nm | |]; try discriminate. cbn in H.
      destruct (pystr_eqb (py_lower nm) q) eqn:Eq; [discriminate |].
      constructor; [| now apply IH].
      exists nm. split; [exact Ev |].
      intros E. apply pystr_eqb_eq in E. congruence.
    + intros H. pose proof (Forall_inv H) as (nm & -> & Hq). cbn.
      destruct (pystr_eqb (py_lower nm) q) eqn:Eq;
        [apply pystr_eqb_eq in Eq; contradiction |].
      apply IH. exact (Forall_inv_tail H).
Qed.

(** The source returned is the first one of the list whose name, in
    lower case, is the query in lower case and stripped; every source
    before it has a name, and another one. No source is returned
    exactly when every source has a name and none is the query. *)
Theorem exact_match_is_first (name : pystr) (sources : list json) :
  let q := py_strip (py_lower name) in
  (forall src,
      _exact_match_source name sources = Ok (Some src) <->
      exists before after,
        sources = before ++ src :: after
        /\ Forall (names_other q) before /\ names q src)
  /\ (_exact_match_source name sources = Ok None <->
      Forall (names_other q) sources).
Proof.
  intros q. split.
  - intros src. apply first_match_some.
  - apply first_match_none.
Qed.

(** The query is stripped and the names of the sources are not: a source
    that is returned has a name without a blank at either end, so that
    no query finds a source whose name starts or ends with a blank. *)
Theorem padded_names_never_match (name : pystr) (sources : list json)
    (src : json) :
  _exact_match_source name sources = Ok (Some src) ->
  exists nm,
    subscript src "sourceName" = Ok (JStr nm)
    /\ (forall c r, nm = c :: r -> is_space c = false)
    /\ (forall r c, nm = r ++ [c] -> is_space c = false).
Proof.
  intros H. apply first_match_some in H as (_ & _ & _ & _ & nm & Hn & Hq).
  exists nm. split; [exact Hn |].
  destruct (strip_ends (py_lower name)) as [Hhead Hlast].
  split.
  - intros c r ->. cbn in Hq. rewrite <- lower_keeps_space.
    exact (Hhead _ _ (eq_sym Hq)).
  - intros r c ->. unfold py_lower in Hq. rewrite map_app in Hq. cbn in Hq.
    rewrite <- lower_keeps_space.
    exact (Hlast _ _ (eq_sym Hq)).
Qed.


(** *** [_available_sources_str] *)

Lemma starts_with_app (x rest : pystr) : starts_with x (x ++ rest) = true.
Proof.
  induction x as [| c x IH]; [reflexivity |].
  cbn. now rewrite Ascii.eqb_refl, IH.
Qed.

Lemma contains_middle (x before after : pystr) :
  contains x (before ++ x ++ after) = true.
Proof.
  induction before as [| c before IH]; cbn [app].
  - destruct (x ++ after) eqn:E; cbn; rewrite <- ?E, starts_with_app;
      reflexivity.
  - cbn. rewrite IH. apply orb_true_r.
Qed.

Lemma join_in (sep p : pystr) (parts : list pystr) :
  In p parts -> exists before after, join sep parts = before ++ p ++ after.
Proof.
  induction parts as [| x rest IH]; [intros [] |].
  intros [-> | Hin].
  - destruct rest as [| y rest].
    + exists [], []. cbn. now rewrite app_nil_r.
    + exists [], (sep ++ join sep (y :: rest)). reflexivity.
  - destruct rest as [| y rest]; [destruct Hin |].
    destruct (IH Hin) as (before & after & E).
    exists (x ++ sep ++ before), after.
    cbn [join]. cbn [join] in E. rewrite E. now rewrite <- !app_assoc.
Qed.

Section Formatting.

Variable py_str : json -> pystr.

Lemma quoted_names_in (sources : list json) (ns : list pystr)
    (src : json) (nm : pystr) :
  quoted_names py_str sources = Ok ns ->
  In src sources ->
  subscript src "sourceName" = Ok (JStr nm) ->
  In (str "'" ++ nm ++ str "'") ns.
Proof.
  revert ns. induction sources as [| x rest IH]; intros ns H Hin Hn;
    [destruct Hin |].
  cbn in H.
  destruct (subscript x "sourceName") as [v | e] eqn:Ev; [| discriminate].
  cbn [bind] in H.
  destruct (quoted_names py_str rest) as [tail | e]; [| discriminate].
  cbn [bind] in H. injection H as <-.
  destruct Hin as [-> | Hin].
  - rewrite Hn in Ev. injection Ev as <-. now left.
  - right. now apply IH.
Qed.

(** The text is the word none exactly when there is no source, and
    otherwise it holds the name of every source between quotes. *)
Theorem available_sources_text (sources : list json) (r : pystr) :
  _available_sources_str py_str sources = Ok r ->
  (sources = [] <-> r = str "none")
  /\ (forall src nm,
        In src sources ->
        subscript src "sourceName" = Ok (JStr nm) ->
        contains (str "'" ++ nm ++ str "'") r = true).
Proof.
  intros H. destruct sources as [| x rest].
  - injection H as <-. split; [tauto | intros src nm []].
  - unfold _available_sources_str in H.
    destruct (quoted_names py_str (x :: rest)) as [ns |] eqn:En;
      [| discriminate].
    cbn [bind] in H. injection H as <-.
    split.
    + split; [discriminate |]. intros Hr. exfalso.
      cbn in En.
      destruct (subscript x "sourceName") as [v | e]; [| discriminate].
      cbn [bind] in En.
      destruct (quoted_names py_str rest) as [tail | e]; [| discriminate].
      cbn [bind] in En. injection En as <-.
      destruct tail; cbn in Hr; discriminate.
    + intros src nm Hin Hn.
      pose proof (quoted_names_in _ _ _ _ En Hin Hn) as Hq.
      destruct (join_in (str ", ") _ _ Hq) as (before & after & E).
      change (join [","%char; " "%char] ns) with (join (str ", ") ns).
      rewrite E. apply contains_middle.
Qed.

(** *** [hide_source] and [show_source] *)

(** Not connected: the fixed reply and no request. When the scene and
    its items can be read, the query has a match and the match has an
    id, each tool makes one request, for that scene and that id, with
    the flag [False] to hide and [True] to show, whatever the client
    then answers. In every other case neither tool makes a request. *)
Theorem visibility_requests (deps : option ReqClient) (name : pystr) :
  (deps = None ->
   hide_source py_str deps name = (str "Error: OBS is not connected.", [])
   /\ show_source py_str deps name
      = (str "Error: OBS is not connected.", []))
  /\ (forall cl scene sources src id,
        deps = Some cl ->
        get_current_program_scene cl = Ok scene ->
        get_scene_item_list cl scene = Ok sources ->
        _exact_match_source name sources = Ok (Some src) ->
        subscript src "sceneItemId" = Ok id ->
        snd (hide_source py_str deps name)
        = [SetSceneItemEnabled scene id false]
        /\ snd (show_source py_str deps name)
           = [SetSceneItemEnabled scene id true])
  /\ ((snd (hide_source py_str deps name) = []
       /\ snd (show_source py_str deps name) = [])
      \/ exists cl scene sources src id,
           deps = Some cl
           /\ get_current_program_scene cl = Ok scene
           /\ get_scene_item_list cl scene = Ok sources
           /\ _exact_match_source name sources = Ok (Some src)
           /\ subscript src "sceneItemId" = Ok id).
Proof.
  split; [intros ->; split; reflexivity |].
  split.
  - intros cl scene sources src id -> Hs Hl Hm Hi.
    unfold hide_source, show_source, caught, set_visible.
    rewrite Hs, Hl, Hm, Hi.
    split.
    + destruct (set_scene_item_enabled cl scene id false); cbn;
        [| reflexivity].
      now destruct (subscript src "sourceName").
    + destruct (set_scene_item_enabled cl scene id true); cbn;
        [| reflexivity].
      now destruct (subscript src "sourceName").
  - destruct deps as [cl |]; [| left; split; reflexivity].
    unfold hide_source, show_source, caught, set_visible.
    destruct (get_current_program_scene cl) as [scene | e] eqn:Hs;
      [| left; split; reflexivity].
    destruct (get_scene_item_list cl scene) as [sources | e] eqn:Hl;
      [| left; split; reflexivity].
    destruct (_exact_match_source name sources) as [[src |] | e] eqn:Hm;
      [| left; cbn; split;
         now destruct (_available_sources_str py_str sources)
       | left; split; reflexivity].
    destruct (subscript src "sceneItemId") as [id | e] eqn:Hi;
      [| left; split; reflexivity].
    right. exists cl, scene, sources, src, id. auto.
Qed.

End Formatting.

(** *** [recording] and [streaming] *)

Lemma pystr_eqb_neq (a b : pystr) : pystr_eqb a b = false <-> a <> b.
Proof.
  unfold pystr_eqb. destruct (list_eq_dec ascii_dec a b); split;
    congruence.
Qed.

Lemma start_differs_from_stop : str "start" <> str "stop".
Proof. discriminate. Qed.

(** The requests of [recording], as a table. *)
Lemma recording_table (deps : option ReqClient) (action : pystr) :
  snd (recording deps action)
  = match deps with
    | None => []
    | Some cl =>
        match get_record_status cl with
        | Raise _ => []
        | Ok active =>
            if action_is action "start"
            then (if active then [] else [StartRecord])
            else if action_is action "stop"
                 then (if active then [StopRecord] else [])
                 else []
        end
    end.
Proof.
  destruct deps as [cl |]; [| reflexivity].
  unfold recording, caught.
  destruct (get_record_status cl) as [[] | e]; [| | reflexivity];
    destruct (action_is action "start"); cbn; try reflexivity;
    try (now destruct (start_record cl));
    destruct (action_is action "stop"); cbn; try reflexivity;
    now destruct (stop_record cl).
Qed.

Lemma streaming_table (deps : option ReqClient) (action : pystr) :
  snd (streaming deps action)
  = match deps with
    | None => []
    | Some cl =>
        match get_stream_status cl with
        | Raise _ => []
        | Ok active =>
            if action_is action "start"
            then (if active then [] else [StartStream])
            else if action_is action "stop"
                 then (if active then [StopStream] else [])
                 else []
        end
    end.
Proof.
  destruct deps as [cl |]; [| reflexivity].
  unfold streaming, caught.
  destruct (get_stream_status cl) as [[] | e]; [| | reflexivity];
    destruct (action_is action "start"); cbn; try reflexivity;
    try (now destruct (start_stream cl));
    destruct (action_is action "stop"); cbn; try reflexivity;
    now destruct (stop_stream cl).
Qed.

Ltac table_row :=
  let H := fresh "H" in
  let H1 := fresh "H" in
  let H2 := fresh "H" in
  let H3 := fresh "H" in
  let cl' := fresh "cl" in
  split;
  [ intros H;
    first [ discriminate H
          | eexists; split; [reflexivity |]; split; congruence ]
  | intros (cl' & H1 & H2 & H3);
    first [ discriminate H1
          | injection H1 as <-; first [reflexivity | congruence] ] ].

Ltac table_rows :=
  pose proof start_differs_from_stop;
  split; [table_row | split; [table_row | auto]].

(** [recording] starts a recording only when the status says that none
    is active and the action is start, stops one only when the status
    says that one is active and the action is stop, and makes no other
    request; case and blanks around the action do not count. *)
Theorem recording_requests (deps : option ReqClient) (action : pystr) :
  let reqs := snd (recording deps action) in
  (reqs = [StartRecord] <->
   exists cl, deps = Some cl /\ get_record_status cl = Ok false
              /\ py_strip (py_lower action) = str "start")
  /\ (reqs = [StopRecord] <->
      exists cl, deps = Some cl /\ get_record_status cl = Ok true
                 /\ py_strip (py_lower action) = str "stop")
  /\ (reqs = [] \/ reqs = [StartRecord] \/ reqs = [StopRecord]).
Proof.
  intros reqs. subst reqs. rewrite recording_table.
  destruct deps as [cl |]; [| table_rows].
  destruct (get_record_status cl) as [active | e] eqn:Hst; [| table_rows].
  unfold action_is.
  destruct (pystr_eqb (py_strip (py_lower action)) (str "start")) eqn:Ea;
    [apply pystr_eqb_eq in Ea | apply pystr_eqb_neq in Ea];
    [destruct active; table_rows |].
  destruct (pystr_eqb (py_strip (py_lower action)) (str "stop")) eqn:Eo;
    [apply pystr_eqb_eq in Eo | apply pystr_eqb_neq in Eo];
    [destruct active; table_rows | table_rows].
Qed.

(** [streaming] follows the same table with its own two requests. *)
Theorem streaming_requests (deps : option ReqClient) (action : pystr) :
  let reqs := snd (streaming deps action) in
  (reqs = [StartStream] <->
   exists cl, deps = Some cl /\ get_stream_status cl = Ok false
              /\ py_strip (py_lower action) = str "start")
  /\ (reqs = [StopStream] <->
      exists cl, deps = Some cl /\ get_stream_status cl = Ok true
                 /\ py_strip (py_lower action) = str "stop")
  /\ (reqs = [] \/ reqs = [StartStream] \/ reqs = [StopStream]).
Proof.
  intros reqs. subst reqs. rewrite streaming_table.
  destruct deps as [cl |]; [| table_rows].
  destruct (get_stream_status cl) as [active | e] eqn:Hst; [| table_rows].
  unfold action_is.
  destruct (pystr_eqb (py_strip (py_lower action)) (str "start")) eqn:Ea;
    [apply pystr_eqb_eq in Ea | apply pystr_eqb_neq in Ea];
    [destruct active; table_rows |].
  destruct (pystr_eqb (py_strip (py_lower action)) (str "stop")) eqn:Eo;
    [apply pystr_eqb_eq in Eo | apply pystr_eqb_neq in Eo];
    [destruct active; table_rows | table_rows].
Qed.

(** *** Looking for a window *)

Lemma first_window_some (q : pystr) (windows : list window) (w : window) :
  first_window q windows = Some w <->
  exists before after,
    windows = before ++ w :: after
    /\ Forall (fun x => contains q (py_lower (title x)) = false) before
    /\ contains q (py_lower (title w)) = true.
Proof.
  induction windows as [| x rest IH]; cbn.
  - split; [discriminate |].
    intros (before & after & H & _). now destruct before.
  - destruct (contains q (py_lower (title x))) eqn:E.
    + split.
      * intros H. injection H as <-. exists [], rest. auto.
      * intros (before & after & H & Hb & Hw).
        destruct before as [| y before]; cbn in H; injection H as -> ->;
          [reflexivity |].
        pose proof (Forall_inv Hb) as Hy. cbn in Hy. congruence.
    + rewrite IH. split.
      * intros (before & after & -> & Hb & Hw).
        exists (x :: before), after. auto.
      * intros (before & after & H & Hb & Hw).
        destruct before as [| y before]; cbn in H; injection H as -> ->;
          [congruence |].
        exists before, after. split; [reflexivity |].
        split; [exact (Forall_inv_tail Hb) | exact Hw].
Qed.

Lemma first_window_none (q : pystr) (windows : list window) :
  first_window q windows = None <->
  Forall (fun x => contains q (py_lower (title x)) = false) windows.
Proof.
  induction windows as [| x rest IH]; cbn.
  - split; [constructor | reflexivity].
  - destruct (contains q (py_lower (title x))) eqn:E.
    + split; [discriminate |]. intros H.
      pose proof (Forall_inv H) as Hx. cbn in Hx. congruence.
    + rewrite IH. split; [now constructor | apply Forall_inv_tail].
Qed.

(** The window taken is the first of the list whose title, in lower
    case, contains the query in lower case and stripped; none is taken
    exactly when no title contains it. *)
Theorem find_window_is_first (window_title : pystr)
    (windows : list window) :
  let q := py_strip (py_lower window_title) in
  (forall w,
      find_window window_title windows = Some w <->
      exists before after,
        windows = before ++ w :: after
        /\ Forall (fun x => contains q (py_lower (title x)) = false) before
        /\ contains q (py_lower (title w)) = true)
  /\ (find_window window_title windows = None <->
      Forall (fun x => contains q (py_lower (title x)) = false) windows).
Proof.
  intros q. split.
  - intros w. apply first_window_some.
  - apply first_window_none.
Qed.

Lemma contains_empty (hay : pystr) : contains [] hay = true.
Proof. now destruct hay. Qed.

(** A title that is empty or all blanks is contained in every title:
    the first window of the list is taken, and with a client and a
    scene at hand [add_window_capture] asks for a capture of that
    window. *)
Theorem blank_title_takes_first_window (window_title : pystr)
    (w : window) (others : list window) :
  forallb is_space window_title = true ->
  find_window window_title (w :: others) = Some w
  /\ (forall cl scene,
        get_current_program_scene cl = Ok scene ->
        snd (add_window_capture (w :: others) (Some cl) window_title)
        = [CreateInput scene (str "Window - " ++ firstn 30 (title w))
             (str "window_capture")
             [(str "window",
               title w ++ str ":" ++ class w ++ str ":" ++ exe w);
              (str "capture_method", str "auto")]
             true]).
Proof.
  intros Hb.
  assert (Hq : py_strip (py_lower window_title) = []).
  { apply strip_blank. now rewrite lower_blank. }
  assert (Hf : find_window window_title (w :: others) = Some w).
  { unfold find_window. rewrite Hq. cbn. now rewrite contains_empty. }
  split; [exact Hf |].
  intros cl scene Hs.
  unfold add_window_capture, caught. rewrite Hs, Hf.
  now destruct (create_input cl _ _ _ _ _).
Qed.

(** *** The name of a text source *)

(** The name is the prefix and the first twenty characters of the text,
    so it has at most twenty-seven characters, and two texts that agree
    on their first twenty characters get the same name. *)
Theorem text_input_name_prefix (text : pystr) :
  text_input_name text = str "Text - " ++ firstn 20 text
  /\ (List.length (text_input_name text) <= 27)%nat
  /\ (forall other, firstn 20 other = firstn 20 text ->
                    text_input_name other = text_input_name text).
Proof.
  assert (H : forall t, text_input_name t = str "Text - " ++ firstn 20 t).
  { intros t. unfold text_input_name.
    destruct (Z.ltb_spec 20 (Z.of_nat (List.length t))); [reflexivity |].
    rewrite firstn_all2 by lia. reflexivity. }
  split; [apply H |]. split.
  - rewrite H, length_app, length_firstn.
    change (List.length (str "Text - ")) with 7%nat. lia.
  - intros other E. now rewrite !H, E.
Qed.

(** *** Instances for the tools *)

Lemma padded_names_never_match_witness :
  let cam := JDict [(str "sourceName", JStr (str "Webcam"));
                    (str "sceneItemId", JInt 3)] in
  let padded := JDict [(str "sourceName", JStr (str "Webcam "));
                       (str "sceneItemId", JInt 2)] in
  _exact_match_source (str "  WEBCAM ") [padded; cam] = Ok (Some cam)
  /\ exists nm,
       subscript cam "sourceName" = Ok (JStr nm)
       /\ (forall c r, nm = c :: r -> is_space c = false)
       /\ (forall r c, nm = r ++ [c] -> is_space c = false).
Proof.
  intros cam padded.
  split; [reflexivity |].
  exact (padded_names_never_match (str "  WEBCAM ") [padded; cam] cam
           eq_refl).
Defined.

Lemma available_sources_text_witness :
  let render := fun _ : json => str "?" in
  let cam := JDict [(str "sourceName", JStr (str "Webcam"))] in
  let mic := JDict [(str "sourceName", JStr (str "Mic"))] in
  _available_sources_str render [cam; mic] = Ok (str "'Webcam', 'Mic'")
  /\ contains (str "'Mic'") (str "'Webcam', 'Mic'") = true.
Proof.
  intros render cam mic.
  split; [reflexivity |].
  exact (proj2 (available_sources_text render [cam; mic]
                  (str "'Webcam', 'Mic'") eq_refl)
           mic (str "Mic") (or_intror (or_introl eq_refl)) eq_refl).
Defined.

Lemma visibility_requests_witness :
  let render := fun _ : json => str "?" in
  let cam := JDict [(str "sourceName", JStr (str "Webcam"));
                    (str "sceneItemId", JInt 3)] in
  let cl := {| get_current_program_scene := Ok (str "Main");
               get_scene_item_list := fun _ => Ok [cam];
               set_scene_item_enabled := fun _ _ _ => Ok tt;
               get_record_status := Ok false;
               start_record := Ok tt;
               stop_record := Ok (str "out.mkv");
               get_stream_status := Ok false;
               start_stream := Ok tt;
               stop_stream := Ok tt;
               create_input := fun _ _ _ _ _ => Ok tt |} in
  snd (hide_source render (Some cl) (str "webcam"))
  = [SetSceneItemEnabled (str "Main") (JInt 3) false]
  /\ snd (show_source render (Some cl) (str "webcam"))
     = [SetSceneItemEnabled (str "Main") (JInt 3) true].
Proof.
  intros render cam cl.
  exact (proj1 (proj2 (visibility_requests render (Some cl) (str "webcam")))
           cl (str "Main") [cam] cam (JInt 3)
           eq_refl eq_refl eq_refl eq_refl eq_refl).
Defined.

Lemma blank_title_takes_first_window_witness :
  let editor := {| title := str "notes.txt - Editor"; exe := str "edit.exe";
                   class := str "EditorWindow"; hwnd := 101 |} in
  let game := {| title := str "Game"; exe := str "game.exe";
                 class := str "GameWindow"; hwnd := 102 |} in
  find_window (str "   ") [editor; game] = Some editor.
Proof.
  intros editor game.
  exact (proj1 (blank_title_takes_first_window (str "   ") editor [game]
                  eq_refl)).
Defined.

End ToolFacts.

(** ** The command that the gate hands on *)

Module CommandFacts.
Import Main MainFacts ToolFacts.

(** Greedy [+] takes the longest run after which the rest succeeds. *)
Lemma plus_longest (A : Type) (cls : ascii -> bool)
    (k : pystr -> ascii -> pystr -> option A) (s acc : pystr) (x : A) :
  plus_greedy cls k acc s = Some x ->
  exists run c rest,
    s = run ++ c :: rest
    /\ forallb cls run = true /\ cls c = true
    /\ k (acc ++ run ++ [c]) c rest = Some x
    /\ (forall more c' rest',
          rest = more ++ c' :: rest' ->
          forallb cls more = true -> cls c' = true ->
          k ((acc ++ run ++ [c]) ++ more ++ [c']) c' rest' = None).
Proof.
  revert acc. induction s as [| a r IH]; intros acc H; cbn in H.
  - discriminate.
  - destruct (cls a) eqn:Ea; [| discriminate].
    destruct (plus_greedy cls k (acc ++ [a]) r) as [y |] eqn:Er.
    + injection H as ->.
      destruct (IH _ Er) as (run & c & rest & -> & Hrun & Hc & Hk & Hmax).
      exists (a :: run), c, rest. cbn. rewrite Ea, Hrun.
      rewrite <- app_assoc in Hk.
      repeat split; auto.
      intros more c' rest' Hr Hm Hc'.
      specialize (Hmax more c' rest' Hr Hm Hc').
      now rewrite <- (app_assoc acc [a]) in Hmax.
    + exists [], a, r. cbn. repeat split; auto.
      intros more c' rest' -> Hm Hc'.
      destruct (k ((acc ++ [a]) ++ more ++ [c']) c' rest') eqn:Ek;
        [| reflexivity].
      exfalso.
      apply (plus_complete A cls k more c' rest' (acc ++ [a]) Hm Hc');
        [congruence | exact Er].
Qed.

Lemma strip_nil_blank (g : pystr) :
  py_strip g = [] -> forallb is_space g = true.
Proof.
  unfold py_strip. intros H.
  destruct (rstrip_split (lstrip g)) as (b1 & H1 & Hb1).
  destruct (lstrip_split g) as (b0 & H0 & Hb0).
  rewrite H in H1. cbn in H1.
  rewrite H0, forallb_app, Hb0, H1. exact Hb1.
Qed.

Lemma blank_is_sep (c : ascii) : is_space c = true -> is_sep c = true.
Proof. unfold is_sep. now intros ->. Qed.

Lemma not_blank_is_dot (c : ascii) : is_space c = false -> is_dot c = true.
Proof.
  destruct (is_dot c) eqn:E; [reflexivity |].
  rewrite (not_dot_is_newline c E). discriminate.
Qed.

(** The group of a match at one place, with what greediness adds: no
    longer run of separators is followed by a character of the group's
    class. *)
Lemma wake_here_greedy (prev : option ascii) (s : pystr)
    (m : option pystr) :
  match_here _WAKE_RE None prev s = Some m ->
  exists w seps g tail,
    s = w ++ seps ++ g ++ tail
    /\ List.length w = 3%nat
    /\ g <> [] /\ forallb is_dot g = true
    /\ m = Some g
    /\ (forall more c' d rest',
          g ++ tail = more ++ c' :: d :: rest' ->
          forallb is_sep more = true -> is_sep c' = true ->
          is_dot d = false).
Proof.
  unfold _WAKE_RE. cbn [match_here]. intros H.
  destruct (at_boundary prev s); [| discriminate].
  destruct s as [| o [| b [| c r]]]; try discriminate;
    destruct (lit_matches "o" o); try discriminate;
    try (destruct (lit_matches "b" b); discriminate).
  destruct (lit_matches "b" b); [| discriminate].
  destruct (lit_matches "s" c); [| discriminate].
  apply plus_longest in H
    as (run & sc & rest0 & -> & Hrun & Hsc & H & Hmax).
  apply (plus_last _ is_dot (@Some pystr)) in H
    as (g & tail & -> & Hg & Hdots & _ & ->).
  exists [o; b; c], (run ++ [sc]), g, tail.
  split; [now rewrite <- !app_assoc |].
  split; [reflexivity |]. split; [exact Hg |]. split; [exact Hdots |].
  split; [reflexivity |].
  intros more c' d rest' E Hm Hc'.
  specialize (Hmax more c' (d :: rest') E Hm Hc'). cbn in Hmax.
  destruct (is_dot d); [| reflexivity].
  now destruct (plus_greedy is_dot _ _ rest').
Qed.

(** A command that the gate extracts is never empty: it has at least
    one character, no blank at either end and no line feed inside. *)
Theorem wake_command_not_empty (text command : pystr) :
  wake_command text = Some command ->
  command <> []
  /\ (forall c r, command = c :: r -> is_space c = false)
  /\ (forall r c, command = r ++ [c] -> is_space c = false)
  /\ forallb is_dot command = true.
Proof.
  unfold wake_command, re_search. intros H.
  destruct (search_from _WAKE_RE None (py_strip text)) as [[g |] |] eqn:E;
    try discriminate.
  injection H as <-.
  destruct (strip_ends g) as [Hhead Hlast].
  assert (Hdots : forallb is_dot (py_strip g) = true
                  /\ py_strip g <> []);
    [| split; [tauto |]; split; [exact Hhead |]; split; [exact Hlast | tauto]].
  apply search_sound in E as (pre & rest0 & Ht & Hm).
  apply wake_here_greedy in Hm
    as (w & seps & g' & tail & -> & _ & Hg & Hd & Heq & Hmax).
  injection Heq as ->.
  split.
  - (* the stripped group lies inside the group *)
    destruct (lstrip_split g') as (b0 & H0 & _).
    destruct (rstrip_split (lstrip g')) as (b1 & H1 & _).
    fold (py_strip g') in H1.
    rewrite H0, H1, !forallb_app in Hd.
    apply andb_true_iff in Hd as [_ Hd].
    now apply andb_true_iff in Hd as [Hd _].
  - (* and it is not empty *)
    intros Hnil. apply strip_nil_blank in Hnil.
    destruct (lstrip_split (g' ++ tail)) as (blanks & Hx & Hb).
    destruct (lstrip (g' ++ tail)) as [| d rest'] eqn:El.
    + (* the text would end with a blank *)
      rewrite app_nil_r in Hx.
      assert (Hne : g' ++ tail <> []) by now destruct g'.
      destruct (exists_last Hne) as (front & z & Hz).
      destruct (strip_ends text) as [_ Hend].
      rewrite Hz in Ht.
      assert (Hzb : is_space z = true).
      { rewrite Hx in Hz. rewrite Hz, forallb_app in Hb. cbn in Hb.
        apply andb_true_iff in Hb as [_ Hb].
        now apply andb_true_iff in Hb as [Hb _]. }
      rewrite (Hend (pre ++ w ++ seps ++ front) z) in Hzb; [discriminate |].
      now rewrite Ht, <- !app_assoc.
    + (* a longer run of separators would have matched *)
      pose proof (lstrip_head _ _ _ El) as Hdn.
      assert (Hbn : blanks <> []).
      { intros ->. cbn in Hx. destruct g' as [| a g']; [congruence |].
        cbn in Hx, Hnil. injection Hx as -> _.
        apply andb_true_iff in Hnil as [Ha _]. congruence. }
      destruct (exists_last Hbn) as (more & c' & ->).
      rewrite forallb_app in Hb. cbn in Hb.
      apply andb_true_iff in Hb as [Hmore Hc'].
      apply andb_true_iff in Hc' as [Hc' _].
      assert (Hsep : forallb is_sep more = true).
      { rewrite forallb_forall in *. intros y Hy.
        apply blank_is_sep. now apply Hmore. }
      rewrite <- app_assoc in Hx. cbn in Hx.
      pose proof (Hmax more c' d rest' Hx Hsep (blank_is_sep c' Hc')) as Hnd.
      rewrite (not_blank_is_dot d Hdn) in Hnd. discriminate.
Qed.


(** *** Which match the gate takes *)

(** [search] stops at the first place where the pattern matches. *)
Lemma search_leftmost (p : list re_item) (s : pystr) (prev : option ascii)
    (m : option pystr) :
  search_from p prev s = Some m ->
  exists pre rest,
    s = pre ++ rest
    /\ match_here p None (last (map Some pre) prev) rest = Some m
    /\ (forall before x after,
          pre = before ++ x :: after ->
          match_here p None (last (map Some before) prev)
            (x :: after ++ rest) = None).
Proof.
  revert prev. induction s as [| c r IH]; intros prev H; cbn in H.
  - destruct (match_here p None prev []) eqn:E; [| discriminate].
    injection H as ->. exists [], [].
    split; [reflexivity |]. split; [exact E |].
    intros before x after Hb. now destruct before.
  - destruct (match_here p None prev (c :: r)) eqn:E.
    + injection H as ->. exists [], (c :: r).
      split; [reflexivity |]. split; [exact E |].
      intros before x after Hb. now destruct before.
    + destruct (IH _ H) as (pre & rest & -> & Hm & Hleft).
      exists (c :: pre), rest. split; [reflexivity |].
      split; [cbn [map]; now rewrite last_cons |].
      intros before x after Hb.
      destruct before as [| y before]; cbn in Hb; injection Hb as -> ->.
      * exact E.
      * cbn [map]. rewrite last_cons. now apply Hleft.
Qed.

(** All that a match of [_WAKE_RE] at one place tells. *)
Lemma wake_here_full (prev : option ascii) (s : pystr) (m : option pystr) :
  match_here _WAKE_RE None prev s = Some m ->
  exists w seps g rest,
    s = w ++ seps ++ g ++ rest
    /\ word_before prev = false
    /\ is_wake_token w
    /\ seps <> [] /\ forallb is_sep seps = true
    /\ g <> [] /\ forallb is_dot g = true
    /\ (rest = [] \/ exists r, rest = "010"%char :: r)
    /\ m = Some g
    /\ (forall more c' d rest',
          g ++ rest = more ++ c' :: d :: rest' ->
          forallb is_sep more = true -> is_sep c' = true ->
          is_dot d = false).
Proof.
  unfold _WAKE_RE. cbn [match_here]. intros H.
  destruct (at_boundary prev s) eqn:Eb; [| discriminate].
  destruct s as [| o [| b [| c r]]]; try discriminate;
    destruct (lit_matches "o" o) eqn:Eo; try discriminate;
    try (destruct (lit_matches "b" b) eqn:Ebb; discriminate).
  destruct (lit_matches "b" b) eqn:Ebb; [| discriminate].
  destruct (lit_matches "s" c) eqn:Es; [| discriminate].
  apply plus_longest in H
    as (run & sc & rest0 & -> & Hrun & Hsc & H & Hmax).
  apply (plus_last _ is_dot (@Some pystr)) in H
    as (g & rest & -> & Hg & Hdots & Hrest & ->).
  exists [o; b; c], (run ++ [sc]), g, rest.
  split; [now rewrite <- !app_assoc |].
  split.
  { unfold at_boundary in Eb. cbn [word_after] in Eb.
    rewrite (wake_letter_is_word o Eo) in Eb.
    now destruct (word_before prev). }
  split.
  { unfold is_wake_token. cbn [map].
    apply lit_matches_lower in Eo, Ebb, Es. now rewrite Eo, Ebb, Es. }
  split; [now destruct run |].
  split; [rewrite forallb_app; cbn; now rewrite Hrun, Hsc |].
  split; [exact Hg |]. split; [exact Hdots |].
  split.
  { destruct Hrest as [-> | (x & r' & -> & Hx)]; [now left | right].
    exists r'. now rewrite (not_dot_is_newline x Hx). }
  split; [reflexivity |].
  intros more c' d rest' E Hm Hc'.
  specialize (Hmax more c' (d :: rest') E Hm Hc'). cbn in Hmax.
  destruct (is_dot d); [| reflexivity].
  now destruct (plus_greedy is_dot _ _ rest').
Qed.

Lemma occurrence_matches (pre tail : pystr) :
  wake_occurrence pre tail ->
  match_here _WAKE_RE None (last (map Some pre) None) tail <> None.
Proof.
  intros (Hpre & w & seps & c & rest & -> & Hw & Hne & Hs & Hc).
  apply word_start_iff in Hpre.
  now apply wake_here_complete.
Qed.

(** From the code to the description of its match. *)
Lemma command_has_match (text command : pystr) :
  wake_command text = Some command ->
  exists pre w seps g rest,
    wake_match (py_strip text) pre w seps g rest
    /\ command = py_strip g.
Proof.
  unfold wake_command, re_search. intros H.
  destruct (search_from _WAKE_RE None (py_strip text)) as [[g |] |] eqn:E;
    try discriminate.
  injection H as <-.
  apply search_leftmost in E as (pre & tail & Ht & Hm & Hleft).
  apply wake_here_full in Hm
    as (w & seps & g' & rest & -> & Hb & Hw & Hne & Hs & Hg & Hd & Hr
        & Heq & Hmax).
  injection Heq as ->.
  exists pre, w, seps, g', rest.
  split; [| reflexivity].
  apply word_start_iff in Hb.
  repeat (split; [assumption |]).
  split; [| exact Hmax].
  intros before x after Hp Hocc.
  exact (occurrence_matches _ _ Hocc (Hleft before x after Hp)).
Qed.

Lemma match_is_occurrence (t pre w seps g rest : pystr) :
  wake_match t pre w seps g rest ->
  wake_occurrence pre (w ++ seps ++ g ++ rest).
Proof.
  intros (_ & Hp & Hw & Hne & Hs & Hg & Hd & _).
  split; [exact Hp |].
  destruct g as [| c g]; [congruence |].
  cbn in Hd. apply andb_true_iff in Hd as [Hc _].
  exists w, seps, c, (g ++ rest). auto.
Qed.

Lemma same_length_prefix (A : Type) (a b x y : list A) :
  List.length a = List.length b -> a ++ x = b ++ y -> a = b /\ x = y.
Proof.
  revert b. induction a as [| h a IH]; intros [| k b] Hl H;
    try discriminate.
  - auto.
  - cbn in Hl, H. injection Hl as Hl. injection H as -> H.
    destruct (IH b Hl H) as [-> ->]. auto.
Qed.

Lemma wake_token_length (w : pystr) :
  is_wake_token w -> List.length w = 3%nat.
Proof.
  unfold is_wake_token. intros H.
  apply (f_equal (@List.length ascii)) in H.
  now rewrite length_map in H.
Qed.

(** A match does not start after another one. *)
Lemma no_earlier_match (t pre w seps g rest pre0 w0 seps0 g0 rest0 l : pystr) :
  wake_match t pre w seps g rest ->
  wake_match t pre0 w0 seps0 g0 rest0 ->
  pre = pre0 ++ l -> l = [].
Proof.
  intros D D0 Hp.
  destruct l as [| x after]; [reflexivity |]. exfalso.
  pose proof (match_is_occurrence _ _ _ _ _ _ D0) as Hocc.
  destruct D as (Ht & _ & _ & _ & _ & _ & _ & _ & Hleft & _).
  destruct D0 as (Ht0 & _).
  apply (Hleft pre0 x after Hp).
  rewrite Hp, Ht0, <- app_assoc in Ht.
  apply app_inv_head in Ht. cbn in Ht. now rewrite <- Ht.
Qed.

(** No longer run of separators leaves a group to start. *)
Lemma no_longer_run (g rest g0 rest0 l : pystr) :
  (forall more c' d rest',
      g ++ rest = more ++ c' :: d :: rest' ->
      forallb is_sep more = true -> is_sep c' = true ->
      is_dot d = false) ->
  forallb is_sep l = true ->
  g ++ rest = l ++ g0 ++ rest0 ->
  g0 <> [] -> forallb is_dot g0 = true ->
  l = [].
Proof.
  intros Hmax Hl E Hg0 Hd0.
  destruct l as [| y l']; [reflexivity |]. exfalso.
  assert (Hne : y :: l' <> []) by discriminate.
  destruct (exists_last Hne) as (more & c' & Hml). rewrite Hml in *.
  rewrite forallb_app in Hl. cbn in Hl.
  apply andb_true_iff in Hl as [Hmore Hc'].
  apply andb_true_iff in Hc' as [Hc' _].
  destruct g0 as [| d g0']; [congruence |].
  cbn in Hd0. apply andb_true_iff in Hd0 as [Hd _].
  rewrite <- app_assoc in E. cbn in E.
  rewrite (Hmax more c' d (g0' ++ rest0) E Hmore Hc') in Hd.
  discriminate.
Qed.

(** A group stops at the end of its line and not before. *)
Lemma line_end (g g0 rest rest0 l : pystr) :
  forallb is_dot g = true ->
  (rest0 = [] \/ exists r, rest0 = "010"%char :: r) ->
  g = g0 ++ l -> rest0 = l ++ rest -> l = [].
Proof.
  intros Hd Hr -> E.
  destruct l as [| x l']; [reflexivity |]. exfalso.
  rewrite forallb_app in Hd. cbn in Hd.
  apply andb_true_iff in Hd as [_ Hd].
  apply andb_true_iff in Hd as [Hx _].
  destruct Hr as [-> | (r & ->)]; [discriminate |].
  injection E as <- _. discriminate.
Qed.

Lemma forallb_part (A : Type) (f : A -> bool) (a b : list A) :
  forallb f (a ++ b) = true -> forallb f b = true.
Proof. rewrite forallb_app. now intros [_ H]%andb_true_iff. Qed.

(** The description fits one match only. *)
Lemma wake_match_unique (t pre w seps g rest pre0 w0 seps0 g0 rest0 : pystr) :
  wake_match t pre w seps g rest ->
  wake_match t pre0 w0 seps0 g0 rest0 ->
  g = g0.
Proof.
  intros D D0.
  pose proof D as (Ht & _ & Hw & _ & Hs & Hg & Hd & Hr & _ & Hmax).
  pose proof D0 as (Ht0 & _ & Hw0 & _ & Hs0 & Hg0 & Hd0 & Hr0 & _ & Hmax0).
  (* the same place *)
  assert (Hpre : pre = pre0).
  { pose proof Ht as E. rewrite Ht0 in E.
    apply app_eq_app in E as (l & [[Hp _] | [Hp _]]).
    - pose proof (no_earlier_match _ _ _ _ _ _ _ _ _ _ _ _ D0 D Hp) as ->.
      now rewrite app_nil_r in Hp.
    - pose proof (no_earlier_match _ _ _ _ _ _ _ _ _ _ _ _ D D0 Hp) as ->.
      now rewrite app_nil_r in Hp. }
  subst pre0. rewrite Ht0 in Ht. apply app_inv_head in Ht.
  (* the same token *)
  apply same_length_prefix in Ht as [_ Ht];
    [| now rewrite !wake_token_length].
  (* the same separators *)
  assert (Hrest : g0 ++ rest0 = g ++ rest).
  { apply app_eq_app in Ht as (l & [[Hp Hy] | [Hp Hy]]).
    - rewrite Hp in Hs0. apply forallb_part in Hs0.
      pose proof (no_longer_run _ _ _ _ _ Hmax Hs0 Hy Hg0 Hd0) as ->.
      exact (eq_sym Hy).
    - rewrite Hp in Hs. apply forallb_part in Hs.
      pose proof (no_longer_run _ _ _ _ _ Hmax0 Hs Hy Hg Hd) as ->.
      exact Hy. }
  (* the same line *)
  apply app_eq_app in Hrest as (l & [[Hp Hy] | [Hp Hy]]).
  - pose proof (line_end _ _ _ _ _ Hd0 Hr Hp Hy) as ->.
    now rewrite app_nil_r in Hp.
  - pose proof (line_end _ _ _ _ _ Hd Hr0 Hp Hy) as ->.
    now rewrite app_nil_r in Hp.
Qed.

Section Gate.

Variable sample : Type.
Variable client : Type.
Variable agent_run : nat -> json -> option client -> attempt.

(** C8, as the code has it. A command is extracted exactly when the
    stripped text holds, at the start of a word, the token obs in any
    mix of cases, then one or more separators, then at least one more
    character that is not a line feed. The command is the one that the
    first such place gives: after the longest run of separators there
    that still leaves a character on the line, the text up to the end of
    that line, stripped; no other text is returned. The three examples
    come out as stated, and a text without a match changes nothing in
    the session and sends nothing. *)
Theorem wake_gate (st : Session sample client) (text : pystr) :
  (wake_command text <> None <->
   exists pre w seps c rest,
     py_strip text = pre ++ w ++ seps ++ c :: rest
     /\ at_word_start pre /\ is_wake_token w
     /\ seps <> [] /\ forallb is_sep seps = true /\ is_dot c = true)
  /\ (forall command,
        wake_command text = Some command <->
        exists pre w seps g rest,
          wake_match (py_strip text) pre w seps g rest
          /\ command = py_strip g)
  /\ (wake_command text = None ->
      _handle_transcription agent_run st text = (st, []))
  /\ wake_command (str "obs, hide webcam") = Some (str "hide webcam")
  /\ wake_command (str "OBS show scene") = Some (str "show scene")
  /\ wake_command (str "hide webcam") = None.
Proof.
  split; [| split; [| split]].
  - split.
    + destruct (wake_command text) as [command |] eqn:E; [| congruence].
      intros _.
      destruct (wake_command_some text command E)
        as (pre & w & seps & g & rest & Ht & Hp & Hw & Hne & Hs & Hg & Hd & _).
      destruct g as [| c g]; [congruence |].
      exists pre, w, seps, c, (g ++ rest).
      cbn in Hd. apply andb_true_iff in Hd as [Hc _].
      repeat split; auto.
    + intros (pre & w & seps & c & rest & Ht & Hp & Hw & Hne & Hs & Hc).
      exact (wake_command_found text pre w seps c rest Ht Hp Hw Hne Hs Hc).
  - intros command. split; [apply command_has_match |].
    intros (pre & w & seps & g & rest & D & ->).
    assert (Hsome : wake_command text <> None).
    { pose proof (match_is_occurrence _ _ _ _ _ _ D)
        as (Hp & w' & seps' & c & rest' & Ht' & Hw & Hne & Hs & Hc).
      destruct D as (Ht & _).
      apply (wake_command_found text pre w' seps' c rest'); auto.
      now rewrite Ht, Ht'. }
    destruct (wake_command text) as [found |] eqn:E; [| congruence].
    destruct (command_has_match text found E)
      as (pre0 & w0 & seps0 & g0 & rest0 & D0 & ->).
    now rewrite (wake_match_unique _ _ _ _ _ _ _ _ _ _ _ D D0).
  - intros H. unfold _handle_transcription. now rewrite H.
  - repeat split; vm_compute; reflexivity.
Qed.

End Gate.

(** Two places and two runs of separators to choose from: the first
    place and the longest run are taken. *)
Lemma wake_gate_witness :
  wake_command (str "jobs. Obs,, mute mic. obs stop") <> None
  /\ wake_command (str "jobs. Obs,, mute mic. obs stop")
     = Some (str "mute mic. obs stop").
Proof.
  split.
  - refine (proj2 (proj1 (wake_gate nat nat (fun _ _ _ => Output None)
                            (new_session None)
                            (str "jobs. Obs,, mute mic. obs stop"))) _).
    exists (str "jobs. "), (str "Obs"), (str ",, "), "m"%char,
      (str "ute mic. obs stop").
    split; [vm_compute; reflexivity |].
    split; [right; exists (str "jobs."), " "%char; split; reflexivity |].
    split; [reflexivity |].
    split; [discriminate |]. split; reflexivity.
  - destruct (proj1 (proj1 (proj2 (wake_gate nat nat (fun _ _ _ => Output None)
                                     (new_session None)
                                     (str "jobs. Obs,, mute mic. obs stop")))
                       (str "mute mic. obs stop")) eq_refl)
      as (pre & w & seps & g & rest & _ & _).
    reflexivity.
Defined.


Lemma wake_command_not_empty_witness :
  wake_command (str "ok obs,,") = Some (str ",")
  /\ str "," <> [].
Proof.
  split; [reflexivity |].
  exact (proj1 (wake_command_not_empty (str "ok obs,,") (str ",") eq_refl)).
Defined.

End CommandFacts.
